(** * GregTheBarber AI: a shallow embedding of the photo-processing client

    The development follows the three source units of the application:
    - [types.ts]: the data model (recommendations, analysis, generated
      styles, the four UI steps);
    - [services/geminiService.ts]: the two request/response clients,
      [analyzePhoto] and [transformHairstyle];
    - [App.tsx]: the React component whose event handlers drive the session
      ([handleFile], [startCamera], [capturePhoto], [handleApiError],
      [processImage], [reset]).

    Asynchronous handlers are written in a small free monad [Async] whose
    suspension points are the [await]s of the source.  A [World] holds the
    React state, the mounted video element, the media streams handed out by
    the browser and the continuations of the promises still in flight; the
    function [step] delivers one browser event to it. *)

From Stdlib Require Import String Ascii List ZArith QArith Lia Bool.
From stdpp Require Import base option list strings gmap.
Import ListNotations.
Open Scope string_scope.

#[local] Set Warnings "-register-all".

(** ** JavaScript strings *)

Module Js.

(** [s.includes(sub)] *)
Fixpoint includes (s sub : string) : bool :=
  if String.prefix sub s then true
  else match s with
       | EmptyString => false
       | String _ s' => includes s' sub
       end.

(** [s.startsWith(p)] *)
Definition startsWith (s p : string) : bool := String.prefix p s.

(** The text before the first [sep] (the whole string when there is none):
    element [0] of [s.split(sep)] for a one-character separator. *)
Fixpoint before (sep : ascii) (s : string) : string :=
  match s with
  | EmptyString => EmptyString
  | String c s' => if Ascii.eqb c sep then EmptyString else String c (before sep s')
  end.

(** The text after the first [sep], if there is one. *)
Fixpoint after (sep : ascii) (s : string) : option string :=
  match s with
  | EmptyString => None
  | String c s' => if Ascii.eqb c sep then Some s' else after sep s'
  end.

(** [s.split(sep)[1]]: [None] stands for [undefined]. *)
Definition split_1 (sep : ascii) (s : string) : option string :=
  before sep <$> after sep s.

(** An [Error] object as the handlers inspect it: its [name] and its
    [message]. *)
Record Error := mkError { name : string; message : string }.

(** [String(err)], that is [Error.prototype.toString]. *)
Definition toString (err : Error) : string :=
  if String.eqb (name err) "" then message err
  else if String.eqb (message err) "" then name err
  else name err +:+ ": " +:+ message err.

(** A settled promise. *)
Inductive Settled (T : Type) : Type :=
| Fulfilled (v : T)
| Rejected (e : Error).
Arguments Fulfilled {T} v.
Arguments Rejected {T} e.

Definition is_fulfilled {T} (p : Settled T) : bool :=
  match p with Fulfilled _ => true | Rejected _ => false end.

(** Interpolation [`${v}`] of a possibly [undefined] string. *)
Definition interpolate (v : option string) : string :=
  match v with Some s => s | None => "undefined" end.

End Js.

Export Js(Settled, Fulfilled, Rejected).

(** ** types.ts *)

Inductive TrendLevel : Type := Classic | Trending | Bold.

Record HairstyleRecommendation : Type := mkRecommendation {
  id : string;
  name : string;
  description : string;
  whyItWorks : string;
  trendLevel : TrendLevel
}.

Record AnalysisResult : Type := mkAnalysis {
  faceShape : string;
  hairTexture : string;
  recommendations : list HairstyleRecommendation
}.

Record GeneratedStyle : Type := mkGenerated {
  style : HairstyleRecommendation;
  imageUrl : string
}.

Inductive AppStep : Type := UPLOAD | ANALYZING | GENERATING | RESULT.

#[global] Instance TrendLevel_eq_dec : EqDecision TrendLevel.
Proof. solve_decision. Defined.
#[global] Instance AppStep_eq_dec : EqDecision AppStep.
Proof. solve_decision. Defined.
#[global] Instance HairstyleRecommendation_eq_dec : EqDecision HairstyleRecommendation.
Proof. solve_decision. Defined.
#[global] Instance AnalysisResult_eq_dec : EqDecision AnalysisResult.
Proof. solve_decision. Defined.
#[global] Instance GeneratedStyle_eq_dec : EqDecision GeneratedStyle.
Proof. solve_decision. Defined.

(** ** JSON.parse

    [JSON.parse] is the engine's built-in.  It is modelled for the JSON
    grammar of ECMA-404: a tokenizer that reads the text one character at a
    time, and a parser that reads the tokens with an explicit stack of open
    containers.  Both recurse on their input only, so parsing is total
    without fuel.  Strings are byte strings (UTF-8); a [\uXXXX] escape is
    stored as its code unit and turned into UTF-8 when the string closes,
    surrogate pairs joined.  Numbers keep their lexeme: their value as a
    double is not needed here. *)

Module JSON.

Inductive Value : Type :=
| Null
| Bool (b : bool)
| Number (lexeme : string)
| Str (s : string)
| Array (elements : list Value)
| Object (members : list (string * Value)).

Inductive Token : Type :=
| TLBrace | TRBrace | TLBracket | TRBracket | TColon | TComma
| TString (s : string) | TNumber (lexeme : string)
| TTrue | TFalse | TNull.

Definition code (c : ascii) : N := N_of_ascii c.

Definition is_ws (c : ascii) : bool :=
  let n := code c in
  (n =? 32)%N || (n =? 9)%N || (n =? 10)%N || (n =? 13)%N.

Definition is_digit (c : ascii) : bool :=
  ((48 <=? code c) && (code c <=? 57))%N.

Definition is_digit19 (c : ascii) : bool :=
  ((49 <=? code c) && (code c <=? 57))%N.

Definition hex_value (c : ascii) : option N :=
  let n := code c in
  if ((48 <=? n) && (n <=? 57))%N then Some (n - 48)%N
  else if ((65 <=? n) && (n <=? 70))%N then Some (n - 55)%N
  else if ((97 <=? n) && (n <=? 102))%N then Some (n - 87)%N
  else None.

(** What a string literal is made of while it is being read. *)
Inductive Item : Type :=
| Byte (c : ascii)
| Unit (u : N).

Definition byte (n : N) : string := String (ascii_of_N n) EmptyString.

Definition utf8 (cp : N) : string :=
  (if cp <? 128 then byte cp
   else if cp <? 2048 then byte (192 + cp / 64) +:+ byte (128 + cp mod 64)
   else if cp <? 65536 then
     byte (224 + cp / 4096) +:+ byte (128 + (cp / 64) mod 64) +:+ byte (128 + cp mod 64)
   else
     byte (240 + cp / 262144) +:+ byte (128 + (cp / 4096) mod 64)
       +:+ byte (128 + (cp / 64) mod 64) +:+ byte (128 + cp mod 64))%N.

Definition is_high (u : N) : bool := ((55296 <=? u) && (u <=? 56319))%N.
Definition is_low (u : N) : bool := ((56320 <=? u) && (u <=? 57343))%N.

Fixpoint finalize (l : list Item) : string :=
  match l with
  | [] => EmptyString
  | Byte c :: r => String c (finalize r)
  | Unit hi :: r =>
      match r with
      | Unit lo :: r' =>
          if is_high hi && is_low lo
          then utf8 (65536 + (hi - 55296) * 1024 + (lo - 56320))%N +:+ finalize r'
          else utf8 hi +:+ finalize r
      | _ => utf8 hi +:+ finalize r
      end
  end.

Inductive NumSt : Type :=
| NMinus | NZero | NInt | NDot | NFrac | NExp | NExpSign | NExpDigits.

Definition is_e (c : ascii) : bool := ((code c =? 101) || (code c =? 69))%N.

Definition num_next (st : NumSt) (c : ascii) : option NumSt :=
  match st with
  | NMinus => if (code c =? 48)%N then Some NZero
              else if is_digit19 c then Some NInt else None
  | NZero => if (code c =? 46)%N then Some NDot
             else if is_e c then Some NExp else None
  | NInt => if is_digit c then Some NInt
            else if (code c =? 46)%N then Some NDot
            else if is_e c then Some NExp else None
  | NDot => if is_digit c then Some NFrac else None
  | NFrac => if is_digit c then Some NFrac
             else if is_e c then Some NExp else None
  | NExp => if ((code c =? 43) || (code c =? 45))%N then Some NExpSign
            else if is_digit c then Some NExpDigits else None
  | NExpSign => if is_digit c then Some NExpDigits else None
  | NExpDigits => if is_digit c then Some NExpDigits else None
  end.

Definition num_accepting (st : NumSt) : bool :=
  match st with
  | NZero | NInt | NFrac | NExpDigits => true
  | _ => false
  end.

Inductive LState : Type :=
| LStart
| LStr (acc : list Item)
| LEsc (acc : list Item)
| LHex (acc : list Item) (digits : list N)
| LNum (st : NumSt) (lexeme : list ascii)
| LLit (rest : list ascii) (tok : Token).

Definition string_of_rev (l : list ascii) : string :=
  string_of_list_ascii (rev l).

(** A character met between tokens.  The tokens a step emits are listed
    latest first. *)
Definition start_char (c : ascii) : option (LState * list Token) :=
  if is_ws c then Some (LStart, [])
  else if (code c =? 123)%N then Some (LStart, [TLBrace])
  else if (code c =? 125)%N then Some (LStart, [TRBrace])
  else if (code c =? 91)%N then Some (LStart, [TLBracket])
  else if (code c =? 93)%N then Some (LStart, [TRBracket])
  else if (code c =? 58)%N then Some (LStart, [TColon])
  else if (code c =? 44)%N then Some (LStart, [TComma])
  else if (code c =? 34)%N then Some (LStr [], [])
  else if (code c =? 45)%N then Some (LNum NMinus [c], [])
  else if (code c =? 48)%N then Some (LNum NZero [c], [])
  else if is_digit19 c then Some (LNum NInt [c], [])
  else if (code c =? 116)%N then Some (LLit (list_ascii_of_string "rue") TTrue, [])
  else if (code c =? 102)%N then Some (LLit (list_ascii_of_string "alse") TFalse, [])
  else if (code c =? 110)%N then Some (LLit (list_ascii_of_string "ull") TNull, [])
  else None.

Definition hex4 (ds : list N) : N :=
  fold_left (fun acc d => acc * 16 + d)%N ds 0%N.

Definition escape (c : ascii) : option ascii :=
  let n := code c in
  if ((n =? 34) || (n =? 92) || (n =? 47))%N then Some c
  else if (n =? 98)%N then Some (ascii_of_N 8)
  else if (n =? 102)%N then Some (ascii_of_N 12)
  else if (n =? 110)%N then Some (ascii_of_N 10)
  else if (n =? 114)%N then Some (ascii_of_N 13)
  else if (n =? 116)%N then Some (ascii_of_N 9)
  else None.

Definition lex_char (st : LState) (c : ascii) : option (LState * list Token) :=
  match st with
  | LStart => start_char c
  | LStr acc =>
      if (code c =? 34)%N then Some (LStart, [TString (finalize (rev acc))])
      else if (code c =? 92)%N then Some (LEsc acc, [])
      else if (code c <? 32)%N then None
      else Some (LStr (Byte c :: acc), [])
  | LEsc acc =>
      if (code c =? 117)%N then Some (LHex acc [], [])
      else match escape c with
           | Some e => Some (LStr (Byte e :: acc), [])
           | None => None
           end
  | LHex acc ds =>
      match hex_value c with
      | Some d =>
          let ds' := (ds ++ [d])%list in
          if (length ds' =? 4)%nat then Some (LStr (Unit (hex4 ds') :: acc), [])
          else Some (LHex acc ds', [])
      | None => None
      end
  | LNum nst lx =>
      match num_next nst c with
      | Some nst' => Some (LNum nst' (c :: lx), [])
      | None =>
          if num_accepting nst then
            match start_char c with
            | Some (st', toks) => Some (st', (toks ++ [TNumber (string_of_rev lx)])%list)
            | None => None
            end
          else None
      end
  | LLit rest tok =>
      match rest with
      | [] => None
      | r :: rest' =>
          if Ascii.eqb c r then
            match rest' with
            | [] => Some (LStart, [tok])
            | _ => Some (LLit rest' tok, [])
            end
          else None
      end
  end.

(** [out] holds the tokens read so far, latest first. *)
Fixpoint lex (s : string) (st : LState) (out : list Token) : option (list Token) :=
  match s with
  | EmptyString =>
      match st with
      | LStart => Some (rev out)
      | LNum nst lx =>
          if num_accepting nst then Some (rev (TNumber (string_of_rev lx) :: out))
          else None
      | _ => None
      end
  | String c s' =>
      match lex_char st c with
      | Some (st', toks) => lex s' st' (toks ++ out)%list
      | None => None
      end
  end.

Definition tokenize (s : string) : option (list Token) := lex s LStart [].

(** An open container: the elements or members read so far, latest first,
    and for an object the key whose value is awaited. *)
Inductive Frame : Type :=
| FArr (elems : list Value)
| FObj (members : list (string * Value)) (key : option string).

Inductive PState : Type :=
| PValue (stack : list Frame)
| PValueOrClose (stack : list Frame)
| PKeyOrClose (stack : list Frame)
| PKey (stack : list Frame)
| PColon (stack : list Frame)
| PAfter (stack : list Frame)
| PDone (v : Value).

(** A value is complete: it goes into the innermost open container. *)
Definition complete (v : Value) (stack : list Frame) : option PState :=
  match stack with
  | [] => Some (PDone v)
  | FArr es :: st => Some (PAfter (FArr (v :: es) :: st))
  | FObj ms (Some k) :: st => Some (PAfter (FObj ((k, v) :: ms) None :: st))
  | FObj _ None :: _ => None
  end.

Definition value_token (t : Token) (stack : list Frame) : option PState :=
  match t with
  | TString s => complete (Str s) stack
  | TNumber l => complete (Number l) stack
  | TTrue => complete (Bool true) stack
  | TFalse => complete (Bool false) stack
  | TNull => complete Null stack
  | TLBracket => Some (PValueOrClose (FArr [] :: stack))
  | TLBrace => Some (PKeyOrClose (FObj [] None :: stack))
  | _ => None
  end.

Definition close_array (stack : list Frame) : option PState :=
  match stack with
  | FArr es :: st => complete (Array (rev es)) st
  | _ => None
  end.

Definition close_object (stack : list Frame) : option PState :=
  match stack with
  | FObj ms None :: st => complete (Object (rev ms)) st
  | _ => None
  end.

Definition key_token (t : Token) (stack : list Frame) : option PState :=
  match t, stack with
  | TString k, FObj ms None :: st => Some (PColon (FObj ms (Some k) :: st))
  | _, _ => None
  end.

Definition parse_token (ps : PState) (t : Token) : option PState :=
  match ps with
  | PValue stack => value_token t stack
  | PValueOrClose stack =>
      match t with
      | TRBracket => close_array stack
      | _ => value_token t stack
      end
  | PKeyOrClose stack =>
      match t with
      | TRBrace => close_object stack
      | _ => key_token t stack
      end
  | PKey stack => key_token t stack
  | PColon stack =>
      match t with
      | TColon => Some (PValue stack)
      | _ => None
      end
  | PAfter stack =>
      match t, stack with
      | TComma, FArr _ :: _ => Some (PValue stack)
      | TComma, FObj _ None :: _ => Some (PKey stack)
      | TRBracket, _ => close_array stack
      | TRBrace, _ => close_object stack
      | _, _ => None
      end
  | PDone _ => None
  end.

Fixpoint parse_tokens (ts : list Token) (ps : PState) : option Value :=
  match ts with
  | [] => match ps with PDone v => Some v | _ => None end
  | t :: ts' =>
      match parse_token ps t with
      | Some ps' => parse_tokens ts' ps'
      | None => None
      end
  end.

Definition parse_value (text : string) : option Value :=
  tokenize text ≫= λ ts, parse_tokens ts (PValue []).

(** The message of the [SyntaxError] is the engine's own: it differs
    between engines and may quote the text.  It is a parameter: the message
    the engine gives for a text it rejects. *)
Definition Engine : Type := string → string.

Definition syntaxError (engine : Engine) (text : string) : Js.Error :=
  Js.mkError "SyntaxError" (engine text).

(** [JSON.parse(text)]: the value, or the [SyntaxError] thrown. *)
Definition parse (engine : Engine) (text : string) : Value + Js.Error :=
  match parse_value text with
  | Some v => inl v
  | None => inr (syntaxError engine text)
  end.

(** [o[k]] on a parsed object: of two members with the same key the later
    one is kept. *)
Fixpoint get (k : string) (members : list (string * Value)) : option Value :=
  match members with
  | [] => None
  | (k', v) :: rest =>
      match get k rest with
      | Some v' => Some v'
      | None => if String.eqb k k' then Some v else None
      end
  end.

End JSON.

(** ** The provider's SDK types, as the service reads and writes them *)

Module GenAI.

(** [inlineData] of a part: every field is optional in the SDK. *)
Record Blob : Type := mkBlob {
  mimeType : option string;
  data : option string
}.

Record Part : Type := mkPart {
  inlineData : option Blob;
  part_text : option string
}.

Record Content : Type := mkContent { parts : option (list Part) }.

Record Candidate : Type := mkCandidate { content : option Content }.

Record GenerateContentResponse : Type := mkResponse {
  text : option string;
  candidates : option (list Candidate)
}.

(** [Type.STRING], [Type.ARRAY] and [Type.OBJECT] schemas. *)
Inductive Schema : Type :=
| STRING (enum : option (list string))
| ARRAY (items : Schema)
| OBJECT (properties : list (string * Schema)) (required : list string).

Inductive Config : Type :=
| JsonConfig (responseMimeType : string) (responseSchema : Schema)
| ImageConfig (aspectRatio : string).

Record GenerateContentParameters : Type := mkParameters {
  model : string;
  contents : list Part;
  config : Config
}.

(** Whether a parsed value has the shape a schema asks for. *)
Fixpoint conforms (sch : Schema) (v : JSON.Value) {struct sch} : bool :=
  match sch, v with
  | STRING None, JSON.Str _ => true
  | STRING (Some allowed), JSON.Str s => bool_decide (s ∈ allowed)
  | ARRAY items, JSON.Array l => forallb (conforms items) l
  | OBJECT properties required, JSON.Object ms =>
      forallb (λ k, bool_decide (is_Some (JSON.get k ms))) required
      && (fix props (ps : list (string * Schema)) : bool :=
            match ps with
            | [] => true
            | (k, s) :: ps' =>
                match JSON.get k ms with
                | Some v' => conforms s v'
                | None => true
                end && props ps'
            end) properties
  | _, _ => false
  end.

End GenAI.

(** ** services/geminiService.ts

    The two clients issue one [generateContent] request each and then read
    the response.  The provider is the parameter [ai]: what the request
    settles to. *)

Module Service.

Import GenAI.

Definition Provider : Type :=
  GenerateContentParameters → Settled GenerateContentResponse.

Definition cleanBase64 (base64 : string) : string :=
  if Js.includes base64 ","
  then match Js.split_1 "," base64 with Some s => s | None => base64 end
  else base64.

Definition recommendationSchema : Schema :=
  OBJECT
    [ ("id", STRING None);
      ("name", STRING None);
      ("description", STRING None);
      ("whyItWorks", STRING None);
      ("trendLevel", STRING (Some ["Classic"; "Trending"; "Bold"])) ]
    ["id"; "name"; "description"; "whyItWorks"; "trendLevel"].

Definition responseSchema : Schema :=
  OBJECT
    [ ("faceShape", STRING None);
      ("hairTexture", STRING None);
      ("recommendations", ARRAY recommendationSchema) ]
    ["faceShape"; "hairTexture"; "recommendations"].

Definition analysisPrompt : string :=
  "You are GregTheBarber, an elite master stylist. Analyze this portrait for face shape and hair texture. Recommend 4 diverse, high-end haircut styles that would suit the subject perfectly. Return the analysis in JSON format.".

Definition analyzeRequest (base64Image : string) : GenerateContentParameters :=
  {| model := "gemini-3-flash-preview";
     contents :=
       [ {| inlineData := Some {| mimeType := Some "image/jpeg";
                                  data := Some (cleanBase64 base64Image) |};
            part_text := None |};
         {| inlineData := None; part_text := Some analysisPrompt |} ];
     config := JsonConfig "application/json" responseSchema |}.

(** The body of the [try] block of [analyzePhoto]: the value returned or
    the error thrown. *)
Definition analyzeResponse (engine : JSON.Engine) (response : GenerateContentResponse)
  : JSON.Value + Js.Error :=
  match text response with
  | None | Some EmptyString =>
      inr (Js.mkError "Error" "Empty response from AI engine.")
  | Some text => JSON.parse engine text
  end.

(** [analyzePhoto]: a rejection of the request is not caught; whatever the
    [try] block throws is wrapped by the [catch].  The value returned is
    [JSON.parse(text) as AnalysisResult], a type assertion only. *)
Definition analyzePhoto (engine : JSON.Engine) (ai : Provider) (base64Image : string)
  : Settled JSON.Value :=
  match ai (analyzeRequest base64Image) with
  | Rejected e => Rejected e
  | Fulfilled response =>
      match analyzeResponse engine response with
      | inl v => Fulfilled v
      | inr e =>
          Rejected (Js.mkError "Error" ("Analysis failed to parse: " +:+ Js.message e))
      end
  end.

Definition stylePrompt (styleName : string) : string :=
  "Professional hair-stylist edit: Keep the person's exact face, eyes, and skin features. Change ONLY the hairstyle to a perfectly groomed "
  +:+ styleName
  +:+ ". Use cinematic barbershop lighting. High contrast, photorealistic, sharp focus on the hair edges. The hairstyle must look like a real master-barber cut it.".

Definition transformRequest (base64Image styleName : string)
  : GenerateContentParameters :=
  {| model := "gemini-2.5-flash-image";
     contents :=
       [ {| inlineData := Some {| mimeType := Some "image/jpeg";
                                  data := Some (cleanBase64 base64Image) |};
            part_text := None |};
         {| inlineData := None; part_text := Some (stylePrompt styleName) |} ];
     config := ImageConfig "1:1" |}.

(** [response.candidates?.[0]?.content?.parts.find(p => p.inlineData)]:
    the optional chain yields [undefined] when a link before [parts] is
    missing; a content without [parts] makes [.find] throw. *)
Definition findImagePart (response : GenerateContentResponse)
  : option Part + Js.Error :=
  match candidates response with
  | None | Some [] => inl None
  | Some (first :: _) =>
      match content first with
      | None => inl None
      | Some c =>
          match parts c with
          | None =>
              inr (Js.mkError "TypeError"
                     "Cannot read properties of undefined (reading 'find')")
          | Some ps => inl (List.find (λ p, bool_decide (is_Some (inlineData p))) ps)
          end
      end
  end.

Definition transformResponse (response : GenerateContentResponse)
  : Settled string :=
  match findImagePart response with
  | inr e => Rejected e
  | inl part =>
      match part ≫= inlineData with
      | Some blob => Fulfilled ("data:image/png;base64," +:+ Js.interpolate (data blob))
      | None =>
          Rejected (Js.mkError "Error"
                      "Visualizer engine error: Failed to generate stylized image.")
      end
  end.

Definition transformHairstyle (ai : Provider) (base64Image styleName : string)
  : Settled string :=
  match ai (transformRequest base64Image styleName) with
  | Rejected e => Rejected e
  | Fulfilled response => transformResponse response
  end.

(** The two errors the [catch] of [analyzePhoto] can throw: for a response
    without text, and for a text the engine's parser rejects, whose message
    ends with the engine's. *)
Definition emptyResponseError : Js.Error :=
  Js.mkError "Error" "Analysis failed to parse: Empty response from AI engine.".

Definition parseError (engine : JSON.Engine) (text : string) : Js.Error :=
  Js.mkError "Error" ("Analysis failed to parse: " +:+ engine text).

(** The shape [AnalysisResult] of [types.ts], read off a parsed value. *)
Definition asString (v : JSON.Value) : option string :=
  match v with JSON.Str s => Some s | _ => None end.

Definition asTrendLevel (v : JSON.Value) : option TrendLevel :=
  match v with
  | JSON.Str s =>
      if String.eqb s "Classic" then Some Classic
      else if String.eqb s "Trending" then Some Trending
      else if String.eqb s "Bold" then Some Bold
      else None
  | _ => None
  end.

Definition field (k : string) (v : JSON.Value) : option JSON.Value :=
  match v with JSON.Object ms => JSON.get k ms | _ => None end.

Definition asRecommendation (v : JSON.Value) : option HairstyleRecommendation :=
  i ← field "id" v ≫= asString;
  n ← field "name" v ≫= asString;
  d ← field "description" v ≫= asString;
  w ← field "whyItWorks" v ≫= asString;
  t ← field "trendLevel" v ≫= asTrendLevel;
  Some (mkRecommendation i n d w t).

Definition asAnalysisResult (v : JSON.Value) : option AnalysisResult :=
  f ← field "faceShape" v ≫= asString;
  h ← field "hairTexture" v ≫= asString;
  rs ← field "recommendations" v ≫=
         (λ a, match a with
               | JSON.Array l => mapM asRecommendation l
               | _ => None
               end);
  Some (mkAnalysis f h rs).

(** What [await analyzePhoto(...)] gives the orchestrator, for a value that
    has the type it is asserted to have. *)
Definition typed (r : Settled JSON.Value) : option (Settled AnalysisResult) :=
  match r with
  | Fulfilled v => Fulfilled <$> asAnalysisResult v
  | Rejected e => Some (Rejected e)
  end.

End Service.

(** ** App.tsx: state, effects and asynchronous handlers *)

Module App.

Definition LOADING_MESSAGES : list string :=
  [ "Mapping facial architecture...";
    "Analyzing hair follicles and texture...";
    "Calculating optimal taper ratios...";
    "Consulting the GregTheBarber style guide...";
    "Applying digital precision shears...";
    "Rendering final masterclass looks..." ].

(** The [useState] cells of the component. *)
Record State : Type := mkState {
  step : AppStep;
  image : option string;
  analysis : option AnalysisResult;
  results : list GeneratedStyle;
  loadingMsgIdx : nat;
  error : option string;
  dragActive : bool;
  showCamera : bool
}.

Definition initialState : State :=
  {| step := UPLOAD; image := None; analysis := None; results := [];
     loadingMsgIdx := 0; error := None; dragActive := false;
     showCamera := false |}.

(** A call of one of the state setters. *)
Inductive Setter : Type :=
| setStep (s : AppStep)
| setImage (i : option string)
| setAnalysis (a : option AnalysisResult)
| setResults (r : list GeneratedStyle)
| setLoadingMsgIdx (f : nat → nat)
| setError (e : option string)
| setDragActive (b : bool)
| setShowCamera (b : bool).

Definition write (s : Setter) (st : State) : State :=
  match s with
  | setStep x =>
      mkState x (image st) (analysis st) (results st) (loadingMsgIdx st)
              (error st) (dragActive st) (showCamera st)
  | setImage x =>
      mkState (step st) x (analysis st) (results st) (loadingMsgIdx st)
              (error st) (dragActive st) (showCamera st)
  | setAnalysis x =>
      mkState (step st) (image st) x (results st) (loadingMsgIdx st)
              (error st) (dragActive st) (showCamera st)
  | setResults x =>
      mkState (step st) (image st) (analysis st) x (loadingMsgIdx st)
              (error st) (dragActive st) (showCamera st)
  | setLoadingMsgIdx f =>
      mkState (step st) (image st) (analysis st) (results st)
              (f (loadingMsgIdx st)) (error st) (dragActive st) (showCamera st)
  | setError x =>
      mkState (step st) (image st) (analysis st) (results st) (loadingMsgIdx st)
              x (dragActive st) (showCamera st)
  | setDragActive x =>
      mkState (step st) (image st) (analysis st) (results st) (loadingMsgIdx st)
              (error st) x (showCamera st)
  | setShowCamera x =>
      mkState (step st) (image st) (analysis st) (results st) (loadingMsgIdx st)
              (error st) (dragActive st) x
  end.

(** *** The browser objects the handlers touch *)

Record File : Type := mkFile { fileName : string; type : string }.

Inductive ReadyState : Type := live | ended.

Record MediaStreamTrack : Type := mkTrack { readyState : ReadyState }.

(** A [MediaStream] is its list of tracks; streams live in a store and are
    referred to by their position in it. *)
Definition MediaStream : Type := list MediaStreamTrack.

Record HTMLVideoElement : Type := mkVideo {
  videoWidth : Z;
  videoHeight : Z;
  srcObject : option nat
}.

(** The arguments of the nine-argument [drawImage], and the element whose
    current frame is drawn. *)
Record Drawing : Type := mkDrawing {
  source : HTMLVideoElement;
  sx : Q; sy : Q; sWidth : Q; sHeight : Q;
  dx : Q; dy : Q; dWidth : Q; dHeight : Q
}.

Record HTMLCanvasElement : Type := mkCanvas {
  width : Z;
  height : Z;
  bitmap : option Drawing
}.

(** [window.aistudio], when the host provides it. *)
Record Aistudio : Type := mkAistudio { openSelectKey_is_function : bool }.

(** What a handler can read when it runs: the refs and the window. *)
Record Dom : Type := mkDom {
  videoRef : option HTMLVideoElement;
  canvasRef : option HTMLCanvasElement;
  context2d : bool;
  window_aistudio : option Aistudio
}.

Inductive Effect : Type :=
| console_error (line : string)
| setSrcObject (stream : nat)
| stopTracks (stream : nat).

Inductive MediaConstraints : Type :=
| videoConstraints (facingMode : string) (idealWidth idealHeight : Z).

(** *** Asynchronous code

    One constructor per kind of step a handler takes.  The [Await]
    constructors are the suspension points; their last argument is the
    rest of the function, resumed with what the promise settled to.
    The component awaits the two clients as their signatures declare them:
    [AwaitAnalyze] is [await analyzePhoto(base64)], a promise of an
    [AnalysisResult], and [AwaitAll] is [await Promise.all(...)] over the
    callbacks of [recommendations.map], each of which awaits its
    [transformHairstyle(base64, name)] call, a promise of a string; the
    calls are all issued before the first of them settles, and a callback
    whose call fails logs its line at that moment. *)
Inductive Async (A : Type) : Type :=
| Ret (a : A)
| Throw (e : Js.Error)
| SetState (s : Setter) (k : Async A)
| Do (e : Effect) (k : Async A)
| Get (k : Dom → Async A)
| AwaitRead (file : File) (k : string → Async A)
| AwaitAnalyze (base64 : string) (k : Settled AnalysisResult → Async A)
| AwaitAll (calls : list (string * string)) (k : list (Settled string) → Async A)
| AwaitSelectKey (k : Settled unit → Async A)
| AwaitUserMedia (c : MediaConstraints) (k : Settled nat → Async A).
Arguments Ret {A} a.
Arguments Throw {A} e.
Arguments SetState {A} s k.
Arguments Do {A} e k.
Arguments Get {A} k.
Arguments AwaitRead {A} file k.
Arguments AwaitAnalyze {A} base64 k.
Arguments AwaitAll {A} calls k.
Arguments AwaitSelectKey {A} k.
Arguments AwaitUserMedia {A} c k.

Fixpoint bind {A B} (p : Async A) (f : A → Async B) : Async B :=
  match p with
  | Ret a => f a
  | Throw e => Throw e
  | SetState s k => SetState s (bind k f)
  | Do e k => Do e (bind k f)
  | Get k => Get (λ d, bind (k d) f)
  | AwaitRead file k => AwaitRead file (λ r, bind (k r) f)
  | AwaitAnalyze b k => AwaitAnalyze b (λ r, bind (k r) f)
  | AwaitAll cs k => AwaitAll cs (λ r, bind (k r) f)
  | AwaitSelectKey k => AwaitSelectKey (λ r, bind (k r) f)
  | AwaitUserMedia c k => AwaitUserMedia c (λ r, bind (k r) f)
  end.

#[global] Instance Async_ret : MRet Async := @Ret.
#[global] Instance Async_bind : MBind Async := λ A B f p, bind p f.

(** [try { p } catch (err) { h err }] *)
Fixpoint try_catch {A} (p : Async A) (h : Js.Error → Async A) : Async A :=
  match p with
  | Ret a => Ret a
  | Throw e => h e
  | SetState s k => SetState s (try_catch k h)
  | Do e k => Do e (try_catch k h)
  | Get k => Get (λ d, try_catch (k d) h)
  | AwaitRead file k => AwaitRead file (λ r, try_catch (k r) h)
  | AwaitAnalyze b k => AwaitAnalyze b (λ r, try_catch (k r) h)
  | AwaitAll cs k => AwaitAll cs (λ r, try_catch (k r) h)
  | AwaitSelectKey k => AwaitSelectKey (λ r, try_catch (k r) h)
  | AwaitUserMedia c k => AwaitUserMedia c (λ r, try_catch (k r) h)
  end.

Definition set (s : Setter) : Async unit := SetState s (Ret tt).
Definition effect (e : Effect) : Async unit := Do e (Ret tt).
Definition get : Async Dom := Get Ret.

(** [await p]: the value, or the rejection thrown. *)
Definition settle {T} (r : Settled T) : Async T :=
  match r with
  | Fulfilled v => Ret v
  | Rejected e => Throw e
  end.

Definition analyzePhoto (base64 : string) : Async AnalysisResult :=
  AwaitAnalyze base64 settle.

Definition openSelectKey : Async unit := AwaitSelectKey settle.

Definition getUserMedia (c : MediaConstraints) : Async nat :=
  AwaitUserMedia c settle.

(** [reader.onloadend = ...; reader.readAsDataURL(file)]: the callback gets
    [reader.result as string]. *)
Definition readAsDataURL (file : File) : Async string := AwaitRead file Ret.

(** A call of an [async] function whose promise nobody awaits, made as the
    last statement of its caller: the callee runs on, and a rejection of
    its promise is lost. *)
Definition spawn (p : Async unit) : Async unit := try_catch p (λ _, Ret tt).

(** *** The handlers *)

Definition credentialMessage : string :=
  "Il servizio richiede una chiave API valida. Per favore, seleziona la tua chiave.".

Definition genericMessage : string :=
  "I nostri stilisti hanno riscontrato un problema tecnico. Riprova tra poco.".

(** [err?.message || String(err)] *)
Definition errorMessage (err : Js.Error) : string :=
  if String.eqb (Js.message err) "" then Js.toString err else Js.message err.

Definition isCredentialError (errorMessage : string) : bool :=
  Js.includes errorMessage "Requested entity was not found"
  || Js.includes errorMessage "API_KEY"
  || Js.includes errorMessage "403".

Definition handleApiError (err : Js.Error) : Async unit :=
  effect (console_error ("API Error: " +:+ Js.toString err));;
  (if isCredentialError (errorMessage err) then
     set (setError (Some credentialMessage));;
     dom ← get;
     match window_aistudio dom with
     | Some host =>
         if openSelectKey_is_function host then openSelectKey else Ret tt
     | None => Ret tt
     end
   else
     set (setError (Some genericMessage)));;
  set (setStep UPLOAD).

(** What the callback given to [recommendations.map] returns for one
    recommendation once its [transformHairstyle] call has settled: the
    generated style, or [null]. *)
Definition generated (rec : HairstyleRecommendation) (r : Settled string)
  : option GeneratedStyle :=
  match r with
  | Fulfilled imageUrl => Some {| style := rec; imageUrl := imageUrl |}
  | Rejected _ => None
  end.

(** The [console.error] line of that callback's [catch], written when the
    call for the style [styleName] fails with [e]. *)
Definition generationErrorLine (styleName : string) (e : Js.Error) : string :=
  "Error generating " +:+ styleName +:+ ": " +:+ Js.toString e.

Definition generationError (styleName : string) (e : Js.Error) : Effect :=
  console_error (generationErrorLine styleName e).

(** [generationPromises] joined: the callbacks' results in the order of
    the recommendations.  The [catch] of a callback runs when its own call
    fails, before the join resumes: the event loop writes its line as the
    call comes back. *)
Definition generationPromises (base64 : string)
    (recs : list HairstyleRecommendation) : Async (list (option GeneratedStyle)) :=
  settled ← AwaitAll (map (λ rec, (base64, name rec)) recs) Ret;
  Ret (zip_with generated recs settled).

Definition processImage (base64 : string) : Async unit :=
  set (setError None);;
  set (setStep ANALYZING);;
  try_catch
    (analysisResult ← analyzePhoto base64;
     set (setAnalysis (Some analysisResult));;
     set (setStep GENERATING);;
     joined ← generationPromises base64 (recommendations analysisResult);
     let generatedResults := omap (λ r, r) joined in
     if (length generatedResults =? 0)%nat
     then Throw (Js.mkError "Error" "Could not generate styles.")
     else
       set (setResults generatedResults);;
       set (setStep RESULT))
    (λ err, spawn (handleApiError err)).

Definition handleFile (file : File) : Async unit :=
  if negb (Js.startsWith (type file) "image/") then
    set (setError (Some "Please upload a valid image file."))
  else
    base64 ← readAsDataURL file;
    set (setImage (Some base64));;
    spawn (processImage base64).

(** [e.type] of a drag event decides. *)
Definition handleDrag (eventType : string) : Async unit :=
  if String.eqb eventType "dragenter" || String.eqb eventType "dragover"
  then set (setDragActive true)
  else if String.eqb eventType "dragleave" then set (setDragActive false)
  else Ret tt.

Definition handleDrop (file : option File) : Async unit :=
  set (setDragActive false);;
  match file with
  | Some f => handleFile f
  | None => Ret tt
  end.

Definition startCamera : Async unit :=
  set (setShowCamera true);;
  try_catch
    (stream ← getUserMedia (videoConstraints "user" 1080 1080);
     dom ← get;
     match videoRef dom with
     | Some _ => effect (setSrcObject stream)
     | None => Ret tt
     end)
    (λ _,
       set (setError (Some "Camera access denied. Please use the upload option."));;
       set (setShowCamera false)).

Definition reset : Async unit :=
  set (setImage None);;
  set (setAnalysis None);;
  set (setResults []);;
  set (setStep UPLOAD);;
  set (setError None);;
  set (setLoadingMsgIdx (λ _, 0%nat)).

(** The back button of the camera screen. *)
Definition dismissCamera : Async unit := set (setShowCamera false).

(** The two buttons of the error banner. *)
Definition updateKey : Async unit :=
  dom ← get;
  match window_aistudio dom with
  | Some host =>
      if openSelectKey_is_function host then openSelectKey
      else Throw (Js.mkError "TypeError" "anyWindow.aistudio.openSelectKey is not a function")
  | None => Ret tt
  end;;
  set (setError None).

Definition closeError : Async unit := set (setError None).

(** The interval callback of the loading screen. *)
Definition tick : Async unit :=
  set (setLoadingMsgIdx (λ prev, (prev + 1) mod length LOADING_MESSAGES)).

(** The square the camera path crops: the canvas after
    [canvas.width = size; canvas.height = size; context.drawImage(...)]. *)
Definition cropSize (video : HTMLVideoElement) : Z :=
  Z.min (videoWidth video) (videoHeight video).

Definition startX (video : HTMLVideoElement) : Q :=
  inject_Z (videoWidth video - cropSize video) / 2.

Definition startY (video : HTMLVideoElement) : Q :=
  inject_Z (videoHeight video - cropSize video) / 2.

Definition cropped (video : HTMLVideoElement) : HTMLCanvasElement :=
  let size := cropSize video in
  {| width := size;
     height := size;
     bitmap := Some {| source := video;
                       sx := startX video; sy := startY video;
                       sWidth := inject_Z size; sHeight := inject_Z size;
                       dx := 0; dy := 0;
                       dWidth := inject_Z size; dHeight := inject_Z size |} |}.

Section Canvas.

(** [canvas.toDataURL(type, quality)] is the browser's encoder. *)
Variable toDataURL : HTMLCanvasElement → string → Q → string.

Definition capturePhoto : Async unit :=
  dom ← get;
  match videoRef dom, canvasRef dom with
  | Some video, Some _ =>
      if context2d dom then
        let base64 := toDataURL (cropped video) "image/jpeg" (9 # 10) in
        set (setImage (Some base64));;
        match srcObject video with
        | Some stream => effect (stopTracks stream)
        | None => Ret tt
        end;;
        set (setShowCamera false);;
        spawn (processImage base64)
      else Ret tt
  | _, _ => Ret tt
  end.

End Canvas.

End App.

(** ** The event loop

    The world between two browser events: the component's state, what is
    mounted, the streams the browser has handed out, and the promises in
    flight with the code waiting for them. *)

Module Runtime.

Import App.

Inductive Call : Type :=
| readAsDataURL_call (file : File)
| analyzePhoto_call (base64 : string)
| transformHairstyle_call (base64 styleName : string)
| openSelectKey_call
| getUserMedia_call (c : MediaConstraints).

(** A remote call leaves ([Issued]) and comes back ([Completed]); [p] is
    the promise awaited. *)
Inductive TraceEntry : Type :=
| Issued (p : nat) (c : Call)
| Completed (p : nat) (c : Call).

Inductive Pending : Type :=
| PRead (file : File) (k : string → Async unit)
| PAnalyze (base64 : string) (k : Settled AnalysisResult → Async unit)
| PAll (calls : list (string * string)) (slots : list (option (Settled string)))
       (k : list (Settled string) → Async unit)
| PSelectKey (k : Settled unit → Async unit)
| PUserMedia (c : MediaConstraints) (k : Settled nat → Async unit).

Record World : Type := mkWorld {
  state : State;
  video : option HTMLVideoElement;
  streams : list MediaStream;
  canvas2d : bool;
  aistudio : option Aistudio;
  pending : gmap nat Pending;
  nextPromise : nat;
  trace : list TraceEntry;
  console : list string
}.

Definition initialWorld (host : option Aistudio) : World :=
  {| state := initialState; video := None; streams := []; canvas2d := true;
     aistudio := host; pending := ∅; nextPromise := 0; trace := [];
     console := [] |}.

(** A canvas element as it is mounted: 300 by 150, nothing drawn. *)
Definition blankCanvas : HTMLCanvasElement :=
  {| width := 300; height := 150; bitmap := None |}.

Definition blankVideo : HTMLVideoElement :=
  {| videoWidth := 0; videoHeight := 0; srcObject := None |}.

(** The video and the canvas are rendered together, inside
    [{showCamera && ...}]. *)
Definition dom (w : World) : Dom :=
  {| videoRef := video w;
     canvasRef := (λ _, blankCanvas) <$> video w;
     context2d := canvas2d w;
     window_aistudio := aistudio w |}.

(** A setter call followed by the render it causes: the camera screen is
    mounted when [showCamera] turns true and unmounted when it turns
    false. *)
Definition applySetter (s : Setter) (w : World) : World :=
  let st := write s (state w) in
  mkWorld st
    (if showCamera st
     then Some (default blankVideo (video w))
     else None)
    (streams w) (canvas2d w) (aistudio w) (pending w) (nextPromise w)
    (trace w) (console w).

Definition stopTrack (_ : MediaStreamTrack) : MediaStreamTrack :=
  {| readyState := ended |}.

Definition applyEffect (e : Effect) (w : World) : World :=
  match e with
  | console_error line =>
      mkWorld (state w) (video w) (streams w) (canvas2d w) (aistudio w)
        (pending w) (nextPromise w) (trace w) (console w ++ [line])
  | setSrcObject stream =>
      mkWorld (state w)
        ((λ v, mkVideo (videoWidth v) (videoHeight v) (Some stream)) <$> video w)
        (streams w) (canvas2d w) (aistudio w)
        (pending w) (nextPromise w) (trace w) (console w)
  | stopTracks stream =>
      mkWorld (state w) (video w)
        (alter (map stopTrack) stream (streams w))
        (canvas2d w) (aistudio w)
        (pending w) (nextPromise w) (trace w) (console w)
  end.

(** The handler stops at an [await]: the calls leave and the rest of the
    handler is kept under a fresh promise. *)
Definition suspend (cs : list Call) (k : Pending) (w : World) : World :=
  let p := nextPromise w in
  mkWorld (state w) (video w) (streams w) (canvas2d w) (aistudio w)
    (<[p := k]> (pending w)) (S p)
    (trace w ++ map (Issued p) cs) (console w).

Definition transformCall (c : string * string) : Call :=
  transformHairstyle_call c.1 c.2.

(** Runs a handler, or the rest of one, up to its next [await].  An
    exception nobody catches ends it without further writes.
    [Promise.all] of no promise at all is fulfilled at once. *)
Fixpoint exec (p : Async unit) (w : World) : World :=
  match p with
  | Ret _ => w
  | Throw _ => w
  | SetState s k => exec k (applySetter s w)
  | Do e k => exec k (applyEffect e w)
  | Get k => exec (k (dom w)) w
  | AwaitRead file k => suspend [readAsDataURL_call file] (PRead file k) w
  | AwaitAnalyze b k => suspend [analyzePhoto_call b] (PAnalyze b k) w
  | AwaitAll cs k =>
      match cs with
      | [] => exec (k []) w
      | _ => suspend (map transformCall cs) (PAll cs (replicate (length cs) None) k) w
      end
  | AwaitSelectKey k => suspend [openSelectKey_call] (PSelectKey k) w
  | AwaitUserMedia c k => suspend [getUserMedia_call c] (PUserMedia c k) w
  end.

(** Promise [p] is settled: it leaves the pending set, and the completion
    of call [c] is recorded. *)
Definition settled (p : nat) (c : Call) (w : World) : World :=
  mkWorld (state w) (video w) (streams w) (canvas2d w) (aistudio w)
    (delete p (pending w)) (nextPromise w)
    (trace w ++ [Completed p c]) (console w).

(** The call [c] behind a join has come back with [r]: where it failed,
    the [catch] of its callback logs the failure. *)
Definition caught (c : string * string) (r : Settled string) (w : World) : World :=
  match r with
  | Fulfilled _ => w
  | Rejected e => applyEffect (generationError c.2 e) w
  end.

(** One of the calls behind the join [p] has come back. *)
Definition slotFilled (p : nat) (c : Call) (k : Pending) (w : World) : World :=
  mkWorld (state w) (video w) (streams w) (canvas2d w) (aistudio w)
    (<[p := k]> (pending w)) (nextPromise w)
    (trace w ++ [Completed p c]) (console w).

Definition addStream (tracks : nat) (w : World) : World :=
  mkWorld (state w) (video w)
    (streams w ++ [replicate tracks {| readyState := live |}])
    (canvas2d w) (aistudio w) (pending w) (nextPromise w) (trace w) (console w).

Definition resizeVideo (vw vh : Z) (w : World) : World :=
  mkWorld (state w)
    ((λ v, mkVideo vw vh (srcObject v)) <$> video w)
    (streams w) (canvas2d w) (aistudio w) (pending w) (nextPromise w)
    (trace w) (console w).

Inductive Event : Type :=
| SelectFile (file : File)
| Drag (eventType : string)
| DropFile (file : option File)
| LoadEnd (p : nat) (result : string)
| AnalysisSettled (p : nat) (r : Settled AnalysisResult)
| TransformSettled (p : nat) (slot : nat) (r : Settled string)
| SelectKeySettled (p : nat) (r : Settled unit)
| UserMediaSettled (p : nat) (r : Settled nat)
| ClickOpenStudio
| ClickCapture
| ClickDismissCamera
| ClickReset
| ClickUpdateKey
| ClickCloseError
| VideoResize (vw vh : Z)
| Tick.

(** What is on screen. *)
Definition uploadVisible (w : World) : bool :=
  bool_decide (step (state w) = UPLOAD) && negb (showCamera (state w)).

Definition cameraVisible (w : World) : bool := showCamera (state w).

Definition errorVisible (w : World) : bool :=
  bool_decide (is_Some (error (state w))).

Definition loadingVisible (w : World) : bool :=
  bool_decide (step (state w) = ANALYZING) || bool_decide (step (state w) = GENERATING).

Section Canvas.

Variable toDataURL : HTMLCanvasElement → string → Q → string.

(** One event of the browser.  A click on a control that is not on
    screen, or news of a promise that is not pending, changes nothing. *)
Definition dispatch (ev : Event) (w : World) : World :=
  match ev with
  | SelectFile file =>
      if uploadVisible w then exec (handleFile file) w else w
  | Drag eventType =>
      if uploadVisible w then exec (handleDrag eventType) w else w
  | DropFile file =>
      if uploadVisible w then exec (handleDrop file) w else w
  | LoadEnd p result =>
      match pending w !! p with
      | Some (PRead file k) =>
          exec (k result) (settled p (readAsDataURL_call file) w)
      | _ => w
      end
  | AnalysisSettled p r =>
      match pending w !! p with
      | Some (PAnalyze b k) => exec (k r) (settled p (analyzePhoto_call b) w)
      | _ => w
      end
  | TransformSettled p slot r =>
      match pending w !! p with
      | Some (PAll cs slots k) =>
          match cs !! slot, slots !! slot with
          | Some c, Some None =>
              let slots' := <[slot := Some r]> slots in
              let w' := caught c r w in
              match mapM (λ s, s) slots' with
              | Some rs => exec (k rs) (settled p (transformCall c) w')
              | None => slotFilled p (transformCall c) (PAll cs slots' k) w'
              end
          | _, _ => w
          end
      | _ => w
      end
  | SelectKeySettled p r =>
      match pending w !! p with
      | Some (PSelectKey k) => exec (k r) (settled p openSelectKey_call w)
      | _ => w
      end
  | UserMediaSettled p r =>
      match pending w !! p with
      | Some (PUserMedia c k) =>
          let w' := settled p (getUserMedia_call c) w in
          match r with
          | Fulfilled tracks =>
              exec (k (Fulfilled (length (streams w')))) (addStream tracks w')
          | Rejected e => exec (k (Rejected e)) w'
          end
      | _ => w
      end
  | ClickOpenStudio =>
      if uploadVisible w then exec startCamera w else w
  | ClickCapture =>
      if cameraVisible w then exec (capturePhoto toDataURL) w else w
  | ClickDismissCamera =>
      if cameraVisible w then exec dismissCamera w else w
  | ClickReset => exec reset w
  | ClickUpdateKey =>
      if errorVisible w then exec updateKey w else w
  | ClickCloseError =>
      if errorVisible w then exec closeError w else w
  | VideoResize vw vh => resizeVideo vw vh w
  | Tick =>
      if loadingVisible w then exec tick w else w
  end.

(** A sequence of events, earliest first. *)
Definition run (evs : list Event) (w : World) : World :=
  foldl (λ w ev, dispatch ev w) w evs.

End Canvas.


(** The camera is held while some stream has a live track. *)
Definition isLive (t : MediaStreamTrack) : bool :=
  match readyState t with live => true | ended => false end.

Definition cameraHeld (w : World) : bool :=
  existsb (existsb isLive) (streams w).

Definition issued (w : World) : list Call :=
  omap (λ e, match e with Issued _ c => Some c | Completed _ _ => None end) (trace w).

(** Whether the host offers a key selector:
    [anyWindow.aistudio && typeof anyWindow.aistudio.openSelectKey === 'function']. *)
Definition keySelector (w : World) : bool :=
  match aistudio w with
  | Some host => openSelectKey_is_function host
  | None => false
  end.

End Runtime.

(** ** Runs of [processImage]

    The code of [processImage] after each of its two [await]s, read off its
    definition, and the events that bring the synthesis calls back. *)

Module Run.

Import App Runtime.

(** [processImage] from the return of [analyzePhoto] on. *)
Definition onAnalysis (base64 : string) (r : Settled AnalysisResult) : Async unit :=
  match processImage base64 with
  | SetState _ (SetState _ (AwaitAnalyze _ k)) => k r
  | _ => Ret tt
  end.

(** [processImage] from the return of [Promise.all] on. *)
Definition onJoin (base64 : string) (a : AnalysisResult)
    (rs : list (Settled string)) : Async unit :=
  match onAnalysis base64 (Fulfilled a) with
  | SetState _ (SetState _ (AwaitAll _ k)) => k rs
  | _ => Ret tt
  end.

(** The arguments of the [transformHairstyle] calls of a run. *)
Definition synthesisCalls (base64 : string) (a : AnalysisResult)
  : list (string * string) :=
  map (λ rec, (base64, name rec)) (recommendations a).

Definition couldNotGenerate : Js.Error :=
  Js.mkError "Error" "Could not generate styles.".

(** The end of [processImage], once [generatedResults] is known. *)
Definition finish (generatedResults : list GeneratedStyle) : Async unit :=
  if (length generatedResults =? 0)%nat
  then spawn (handleApiError couldNotGenerate)
  else SetState (setResults generatedResults) (SetState (setStep RESULT) (Ret tt)).

(** The calls behind join [p] come back in the order [order], call [i]
    settling to [rs !! i]. *)
Definition deliveries (p : nat) (order : list nat) (rs : list (Settled string))
  : list Event :=
  omap (λ i, TransformSettled p i <$> rs !! i) order.

(** The lines the callbacks of the failed calls have logged, in the order
    in which the calls came back. *)
Definition failureLines (cs : list (string * string)) (order : list nat)
    (rs : list (Settled string)) : list string :=
  omap (λ i, match cs !! i, rs !! i with
             | Some c, Some (Rejected e) => Some (generationErrorLine c.2 e)
             | _, _ => None
             end) order.

(** The world in which the join resumes: promise [p] is gone, the
    completions are on the trace and the failures on the console. *)
Definition joined (p : nat) (cs : list (string * string)) (order : list nat)
    (rs : list (Settled string)) (w : World) : World :=
  mkWorld (state w) (video w) (streams w) (canvas2d w) (aistudio w)
    (delete p (pending w)) (nextPromise w)
    (trace w ++ omap (λ i, Completed p ∘ transformCall <$> cs !! i) order)
    (console w ++ failureLines cs order rs).

(** The state a run has written by the time its synthesis calls are out. *)
Definition generating (a : AnalysisResult) (st : State) : State :=
  write (setStep GENERATING) (write (setAnalysis (Some a))
    (write (setStep ANALYZING) (write (setError None) st))).

(** The number of synthesis calls that succeed. *)
Definition succeeded (rs : list (Settled string)) : nat :=
  length (filter (λ r, Js.is_fulfilled r = true) rs).

Section Canvas.

Variable toDataURL : HTMLCanvasElement → string → Q → string.

(** A whole run started in [w]: the analysis returns [a], then the
    synthesis calls settle to [rs] in the order [order]. *)
Definition processRun (base64 : string) (a : AnalysisResult)
    (rs : list (Settled string)) (order : list nat) (w : World) : World :=
  let p := nextPromise w in
  run toDataURL
    (AnalysisSettled p (Fulfilled a) :: deliveries (S p) order rs)
    (exec (processImage base64) w).

End Canvas.

End Run.

(** ** Sample inputs *)

Module Sample.

Import App GenAI.

(** An encoder: an empty canvas gives ["data:,"], any other a JPEG data
    URI. *)
Definition encoder : HTMLCanvasElement → string → Q → string :=
  λ c _ _,
    if (width c =? 0)%Z || (height c =? 0)%Z then "data:,"
    else "data:image/jpeg;base64,/9j/4AAQSkZJRg==".

(** A stand-in for the messages of the engine's JSON parser: it quotes
    the text it rejects, as V8 does with a short one. *)
Definition engine : JSON.Engine :=
  λ text,
    String (ascii_of_nat 34) text
    +:+ String (ascii_of_nat 34) " is not valid JSON".

(** An engine whose message does not show the text. *)
Definition terse : JSON.Engine := λ _, "Unexpected end of JSON input".

Definition portrait : File := mkFile "portrait.png" "image/png".
Definition notes : File := mkFile "notes.txt" "text/plain".

Definition first : string := "data:image/png;base64,Rmlyc3Q=".

Definition crop : HairstyleRecommendation :=
  mkRecommendation "1" "Textured Crop" "Short textured top" "Balances an oval face" Trending.
Definition sidePart : HairstyleRecommendation :=
  mkRecommendation "2" "Side Part" "Classic side part" "Frames the forehead" Classic.
Definition buzz : HairstyleRecommendation :=
  mkRecommendation "3" "Buzz Cut" "Even clipper cut" "Shows the jawline" Bold.
Definition pompadour : HairstyleRecommendation :=
  mkRecommendation "4" "Pompadour" "Volume swept back" "Adds height" Trending.

Definition oval : AnalysisResult :=
  mkAnalysis "Oval" "Wavy" [crop; sidePart; buzz; pompadour].

Definition noImage : Js.Error :=
  Js.mkError "Error" "Visualizer engine error: Failed to generate stylized image.".

Definition forbidden : Js.Error :=
  Js.mkError "ApiError" "got status: 403 Forbidden".

Definition noKey : Js.Error := Js.mkError "Error" "No key selected".

Definition host : Aistudio := mkAistudio true.

(** The first, third and fourth call succeed, the second fails. *)
Definition outcomes : list (Settled string) :=
  [ Fulfilled "data:image/png;base64,QQ=="; Rejected noImage;
    Fulfilled "data:image/png;base64,Qw=="; Fulfilled "data:image/png;base64,RA==" ].

Definition allFail : list (Settled string) := replicate 4 (Rejected noImage).

(** The calls come back out of order. *)
Definition order : list nat := [2; 0; 3; 1]%nat.

(** A provider's answer whose image part is declared as JPEG. *)
Definition jpegReply : GenerateContentResponse :=
  mkResponse None
    (Some [ mkCandidate (Some (mkContent (Some
        [ mkPart None (Some "Here is the new look.");
          mkPart (Some (mkBlob (Some "image/jpeg") (Some "/9j/4AAQSkZJRg=="))) None ]))) ]).

Definition truncatedReply : GenerateContentResponse :=
  mkResponse (Some "[1, 2") None.

Definition emptyObjectReply : GenerateContentResponse :=
  mkResponse (Some "{}") None.

Definition emptyReply : GenerateContentResponse := mkResponse None None.

(** A text that is no JSON and carries a credential marker. *)
Definition refusalReply : GenerateContentResponse :=
  mkResponse (Some "API_KEY invalid") None.

Definition bald : AnalysisResult := mkAnalysis "Round" "Fine" [].

(** The camera screen with a stream of one track attached and a
    1280 by 720 picture. *)
Definition cameraOpen : Runtime.World :=
  Runtime.run encoder
    [ Runtime.ClickOpenStudio; Runtime.UserMediaSettled 0 (Fulfilled 1%nat);
      Runtime.VideoResize 1280 720 ]
    (Runtime.initialWorld None).

Definition liveVideo : HTMLVideoElement := mkVideo 1280 720 (Some 0%nat).

End Sample.

(** ** Texts and errors of the handlers and of the synthesis client *)

Module Messages.

Import App.

(** [handleFile], for a file that is no image. *)
Definition invalidFileMessage : string := "Please upload a valid image file.".

(** The [catch] of [startCamera]. *)
Definition cameraDeniedMessage : string :=
  "Camera access denied. Please use the upload option.".

(** Every text a [setError] call of the component is given. *)
Definition bannerTexts : list string :=
  [invalidFileMessage; cameraDeniedMessage; credentialMessage; genericMessage].

(** The [throw] at the end of [transformHairstyle]. *)
Definition visualizerError : Js.Error :=
  Js.mkError "Error" "Visualizer engine error: Failed to generate stylized image.".

(** [.find] called on a content that has no [parts]. *)
Definition partsTypeError : Js.Error :=
  Js.mkError "TypeError" "Cannot read properties of undefined (reading 'find')".

End Messages.

(** ** The handlers after their [await] *)

Module Resume.

Import App Runtime.

(** What [reader.onloadend] runs. *)
Definition onLoadEnd (base64 : string) : Async unit :=
  SetState (setImage (Some base64)) (spawn (processImage base64)).

(** [startCamera] from the return of [getUserMedia] on. *)
Definition onUserMedia (r : Settled nat) : Async unit :=
  match startCamera with
  | SetState _ (AwaitUserMedia _ k) => k r
  | _ => Ret tt
  end.

(** The Update Key button from the return of [openSelectKey] on:
    [await] it, then [setError(null)]. *)
Definition onKeySelected (r : Settled unit) : Async unit :=
  bind (settle r) (λ _, set (setError None)).

End Resume.

(** ** Invariants of the component

    [safe I p st]: run from a state [st], the code [p] stops only in states
    that satisfy [I], provided the states in which it is resumed do. *)

Module Invariant.

Import App Runtime Messages.

Fixpoint safe (I : State → Prop) (p : Async unit) (st : State) : Prop :=
  match p with
  | Ret _ | Throw _ => I st
  | SetState s k => safe I k (write s st)
  | Do _ k => safe I k st
  | Get k => ∀ d, safe I (k d) st
  | AwaitRead _ k => I st ∧ ∀ r st', I st' → safe I (k r) st'
  | AwaitAnalyze _ k => I st ∧ ∀ r st', I st' → safe I (k r) st'
  | AwaitAll cs k =>
      match cs with
      | [] => safe I (k []) st
      | _ => I st ∧ ∀ rs st', I st' → safe I (k rs) st'
      end
  | AwaitSelectKey k => I st ∧ ∀ r st', I st' → safe I (k r) st'
  | AwaitUserMedia _ k => I st ∧ ∀ r st', I st' → safe I (k r) st'
  end.

Definition pendingSafe (I : State → Prop) (pend : Pending) : Prop :=
  match pend with
  | PRead _ k => ∀ r st, I st → safe I (k r) st
  | PAnalyze _ k => ∀ r st, I st → safe I (k r) st
  | PAll _ _ k => ∀ rs st, I st → safe I (k rs) st
  | PSelectKey k => ∀ r st, I st → safe I (k r) st
  | PUserMedia _ k => ∀ r st, I st → safe I (k r) st
  end.

Definition worldSafe (I : State → Prop) (w : World) : Prop :=
  I (state w) ∧ ∀ p pend, pending w !! p = Some pend → pendingSafe I pend.

(** Every handler of the component keeps [I]. *)
Definition handlersSafe (I : State → Prop)
    (toDataURL : HTMLCanvasElement → string → Q → string) : Prop :=
  ∀ st, I st →
    (∀ file, safe I (handleFile file) st)
    ∧ (∀ t, safe I (handleDrag t) st)
    ∧ (∀ file, safe I (handleDrop file) st)
    ∧ safe I startCamera st
    ∧ safe I (capturePhoto toDataURL) st
    ∧ safe I dismissCamera st
    ∧ safe I reset st
    ∧ safe I updateKey st
    ∧ safe I closeError st
    ∧ safe I tick st.

Definition resultsShown (st : State) : Prop :=
  step st = RESULT → results st ≠ [].

Definition messageInRange (st : State) : Prop :=
  (loadingMsgIdx st < length LOADING_MESSAGES)%nat.

Definition bannerFixed (st : State) : Prop :=
  ∀ m, error st = Some m → m ∈ bannerTexts.

Definition sessionInv (st : State) : Prop :=
  resultsShown st ∧ messageInRange st ∧ bannerFixed st.

(** [step === AppStep.RESULT && results.length > 0] *)
Definition resultsVisible (w : World) : bool :=
  bool_decide (step (state w) = RESULT) && (0 <? length (results (state w)))%nat.

End Invariant.

(** ** Sample worlds *)

Module Scene.

Import App Runtime.

(** A portrait has been chosen and read: the loading screen is shown. *)
Definition loading : World :=
  run Sample.encoder
    [ SelectFile Sample.portrait; LoadEnd 0 Sample.first ] (initialWorld None).

(** A text file has been chosen on a host with a key selector: the banner
    is shown. *)
Definition refused : World :=
  run Sample.encoder [ SelectFile Sample.notes ] (initialWorld (Some Sample.host)).

(** A whole session, from the choice of the file to the results. *)
Definition gallery : list Event :=
  [ SelectFile Sample.portrait; LoadEnd 0 Sample.first;
    AnalysisSettled 1 (Fulfilled Sample.oval);
    TransformSettled 2 2 (Fulfilled "data:image/png;base64,Qw==");
    TransformSettled 2 0 (Fulfilled "data:image/png;base64,QQ==");
    TransformSettled 2 3 (Fulfilled "data:image/png;base64,RA==");
    TransformSettled 2 1 (Rejected Sample.noImage) ].

(** A provider that answers with a candidate that has no content. *)
Definition silent : GenAI.GenerateContentResponse :=
  GenAI.mkResponse None (Some [ GenAI.mkCandidate None ]).

End Scene.

(** * Properties *)

Import App Runtime Run.
Open Scope list_scope.

(** ** The monad and the event loop *)

Lemma state_applyEffect e w : state (applyEffect e w) = state w.
Proof. by destruct e. Qed.

Lemma state_caught c r w : state (caught c r w) = state w.
Proof. by destruct r. Qed.

Lemma pending_caught c r w : pending (caught c r w) = pending w.
Proof. by destruct r. Qed.

Lemma processImage_unfold b :
  processImage b
  = SetState (setError None) (SetState (setStep ANALYZING) (AwaitAnalyze b (onAnalysis b))).
Proof. reflexivity. Qed.

Lemma onAnalysis_fulfilled b a :
  onAnalysis b (Fulfilled a)
  = SetState (setAnalysis (Some a))
      (SetState (setStep GENERATING)
         (AwaitAll (map (λ rec, (b, name rec)) (recommendations a)) (onJoin b a))).
Proof. reflexivity. Qed.

Lemma onAnalysis_rejected b e :
  onAnalysis b (Rejected e) = spawn (handleApiError e).
Proof. reflexivity. Qed.

Lemma onJoin_unfold b a rs :
  onJoin b a rs
  = finish (omap (λ r, r) (zip_with generated (recommendations a) rs)).
Proof.
  unfold onJoin. cbn -[handleApiError zip_with omap Nat.eqb].
  unfold finish. by destruct (_ =? _)%nat.
Qed.

Lemma mapM_all_Some {A} (l : list A) : mapM (λ s : option A, s) (Some <$> l) = Some l.
Proof. by apply mapM_fmap_Some. Qed.

Lemma mapM_has_None {A} (l : list (option A)) j :
  l !! j = Some None → mapM (λ s, s) l = None.
Proof.
  intros Hj. destruct (mapM _ l) as [k|] eqn:E; [|done].
  apply mapM_Some_1 in E.
  destruct (Forall2_lookup_l _ _ _ _ _ E Hj) as (y & _ & ?). done.
Qed.

Section Loop.

Variable toDataURL : HTMLCanvasElement → string → Q → string.

Lemma run_cons ev evs w :
  run toDataURL (ev :: evs) w = run toDataURL evs (dispatch toDataURL ev w).
Proof. reflexivity. Qed.

Lemma run_nil w : run toDataURL [] w = w.
Proof. reflexivity. Qed.

Lemma joined_last p cs rs i c r w :
  cs !! i = Some c → rs !! i = Some r →
  settled p (transformCall c) (caught c r w) = joined p cs [i] rs w.
Proof.
  intros Hc Hr. unfold joined, settled, failureLines.
  cbn [omap list_omap]. rewrite Hc, Hr.
  destruct r; cbn -[lookup insert delete]; rewrite ?app_nil_r; reflexivity.
Qed.

Lemma joined_next p cs rs i rest c r pend w :
  cs !! i = Some c → rs !! i = Some r →
  joined p cs rest rs (slotFilled p (transformCall c) pend (caught c r w))
  = joined p cs (i :: rest) rs w.
Proof.
  intros Hc Hr. unfold joined, slotFilled, failureLines.
  cbn [omap list_omap]. rewrite Hc, Hr.
  destruct r; cbn -[lookup insert delete omap];
    rewrite delete_insert_eq, <- ?app_assoc; reflexivity.
Qed.

(** The join resumes once, when the last call has come back, whatever the
    order in which the calls come back; it is given the outcomes in the
    order of the calls. *)
Lemma join_any_order p k cs rs :
  length rs = length cs →
  ∀ order slots w,
    pending w !! p = Some (PAll cs slots k) →
    order ≠ [] → NoDup order → length slots = length cs →
    (∀ i, i ∈ order → slots !! i = Some None ∧ i < length cs) →
    (∀ i, i < length cs → i ∉ order → slots !! i = Some (rs !! i)) →
    run toDataURL (deliveries p order rs) w = exec (k rs) (joined p cs order rs w).
Proof.
  intros Hlen order. induction order as [|i rest IH]; [done|].
  intros slots w Hp _ Hnd Hsl Htodo Hdone.
  apply NoDup_cons in Hnd as [Hi Hnd].
  pose proof (Htodo i (list_elem_of_here _ _)) as [Hsi Hlt].
  destruct (lookup_lt_is_Some_2 rs i) as [r Hr]; [lia|].
  destruct (lookup_lt_is_Some_2 cs i) as [c Hc]; [lia|].
  unfold deliveries. cbn [omap list_omap]. rewrite Hr. cbn [fmap option_fmap option_map].
  fold (deliveries p rest rs). rewrite run_cons.
  unfold dispatch at 1. rewrite Hp, Hc, Hsi.
  destruct rest as [|j rest'].
  - assert (<[i:=Some r]> slots = Some <$> rs) as ->.
    { apply list_eq. intros j. rewrite list_lookup_fmap.
      destruct (decide (j = i)) as [->|Hne].
      - rewrite list_lookup_insert_eq by lia. by rewrite Hr.
      - rewrite list_lookup_insert_ne by done.
        destruct (decide (j < length cs)) as [Hj|Hj].
        + rewrite (Hdone j Hj).
          * destruct (lookup_lt_is_Some_2 rs j) as [r' Hr']; [lia|]. by rewrite Hr'.
          * rewrite list_elem_of_singleton. done.
        + rewrite !lookup_ge_None_2 by lia. done. }
    rewrite mapM_all_Some. cbn zeta. unfold deliveries. cbn [omap list_omap].
    rewrite run_nil. f_equal. by apply joined_last.
  - apply not_elem_of_cons in Hi as [Hij Hi].
    rewrite (mapM_has_None _ j).
    2:{ rewrite list_lookup_insert_ne by done.
        apply Htodo. apply elem_of_cons. right. apply list_elem_of_here. }
    erewrite IH with (slots := <[i:=Some r]> slots).
    + f_equal. by apply joined_next.
    + cbn. apply lookup_insert_eq.
    + done.
    + done.
    + by rewrite length_insert.
    + intros j' Hj'. rewrite list_lookup_insert_ne.
      * apply Htodo. apply elem_of_cons. by right.
      * intros ->. apply elem_of_cons in Hj' as [?|?]; done.
    + intros j' Hlt' Hnot. destruct (decide (j' = i)) as [->|Hne].
      * rewrite list_lookup_insert_eq by lia. by rewrite Hr.
      * rewrite list_lookup_insert_ne by done. apply Hdone; [done|].
        rewrite not_elem_of_cons. done.
Qed.

Lemma pending_suspend cs k w : pending (suspend cs k w) !! nextPromise w = Some k.
Proof. apply lookup_insert_eq. Qed.

Lemma dispatch_analysis_fulfilled w p b a :
  pending w !! p = Some (PAnalyze b (onAnalysis b)) →
  recommendations a ≠ [] →
  dispatch toDataURL (AnalysisSettled p (Fulfilled a)) w
  = suspend (map transformCall (synthesisCalls b a))
      (PAll (synthesisCalls b a)
         (replicate (length (synthesisCalls b a)) None) (onJoin b a))
      (applySetter (setStep GENERATING)
         (applySetter (setAnalysis (Some a))
            (settled p (analyzePhoto_call b) w))).
Proof.
  intros Hp Hne. unfold dispatch. rewrite Hp, onAnalysis_fulfilled.
  cbn [exec]. fold (synthesisCalls b a). unfold synthesisCalls at 1.
  by destruct (recommendations a).
Qed.

(** The join of a run resumes with [finish], in the world the deliveries
    have left. *)
Lemma join_resumes p b a rs order w :
  pending w !! p
  = Some (PAll (synthesisCalls b a)
            (replicate (length (synthesisCalls b a)) None) (onJoin b a)) →
  recommendations a ≠ [] →
  length rs = length (recommendations a) →
  order ≡ₚ seq 0 (length (recommendations a)) →
  run toDataURL (deliveries p order rs) w
  = exec (finish (omap (λ r, r) (zip_with generated (recommendations a) rs)))
      (joined p (synthesisCalls b a) order rs w).
Proof.
  intros Hp Hne Hlen Hperm.
  assert (length (synthesisCalls b a) = length (recommendations a)) as Hcs
    by apply length_map.
  rewrite (join_any_order p (onJoin b a) (synthesisCalls b a) rs)
    with (slots := replicate (length (synthesisCalls b a)) None).
  - by rewrite onJoin_unfold.
  - lia.
  - done.
  - intros ->. apply Permutation_nil_l in Hperm.
    by destruct (recommendations a).
  - rewrite Hperm. apply NoDup_seq.
  - by rewrite length_replicate.
  - intros i Hi. rewrite Hperm in Hi. apply elem_of_seq in Hi.
    split; [|lia]. apply lookup_replicate_2. lia.
  - intros i Hi Hnot. exfalso. apply Hnot. rewrite Hperm.
    apply elem_of_seq. lia.
Qed.

(** The join of a run resumes with [finish] in a world whose state is the
    one the last delivery found. *)
Lemma join_finish p b a rs order w :
  pending w !! p
  = Some (PAll (synthesisCalls b a)
            (replicate (length (synthesisCalls b a)) None) (onJoin b a)) →
  recommendations a ≠ [] →
  length rs = length (recommendations a) →
  order ≡ₚ seq 0 (length (recommendations a)) →
  ∃ w0, run toDataURL (deliveries p order rs) w
        = exec (finish (omap (λ r, r) (zip_with generated (recommendations a) rs))) w0
      ∧ state w0 = state w.
Proof.
  intros Hp Hne Hlen Hperm. eexists. split; [by apply join_resumes|]. reflexivity.
Qed.

Lemma processRun_finish b a rs order w :
  length rs = length (recommendations a) →
  order ≡ₚ seq 0 (length (recommendations a)) →
  ∃ w0, processRun toDataURL b a rs order w
        = exec (finish (omap (λ r, r) (zip_with generated (recommendations a) rs))) w0
      ∧ state w0 = generating a (state w).
Proof.
  intros Hlen Hperm. unfold processRun. rewrite run_cons.
  assert (pending (exec (processImage b) w) !! nextPromise w
          = Some (PAnalyze b (onAnalysis b))) as Hp
    by (cbn; apply lookup_insert_eq).
  destruct (decide (recommendations a = [])) as [Hnil|Hne].
  - rewrite Hnil in Hlen, Hperm. cbn in Hperm.
    apply Permutation_nil_r in Hperm as ->. destruct rs; [|done].
    unfold dispatch. rewrite Hp, onAnalysis_fulfilled, Hnil.
    cbn [map exec deliveries omap list_omap]. rewrite run_nil, onJoin_unfold, Hnil.
    cbn [zip_with concat foldr]. eexists. split; [reflexivity|]. done.
  - rewrite (dispatch_analysis_fulfilled _ _ _ _ Hp Hne).
    edestruct (join_finish (S (nextPromise w)) b a rs order) as (w0 & -> & Hst);
      [ | done | done | done | ].
    + cbn. apply lookup_insert_eq.
    + eexists. split; [reflexivity|]. by rewrite Hst.
Qed.

Lemma length_generated recs rs :
  length rs = length recs →
  length (omap (λ r, r) (zip_with generated recs rs)) = succeeded rs.
Proof.
  revert rs. induction recs as [|rec recs IH]; intros [|r rs] Hlen; try done.
  unfold succeeded in *. cbn in Hlen. injection Hlen as Hlen.
  destruct r; cbn; rewrite ?filter_cons_True, ?filter_cons_False by done; cbn;
    rewrite IH by done; done.
Qed.

Lemma sublist_generated recs rs :
  style <$> omap (λ r, r) (zip_with generated recs rs) `sublist_of` recs.
Proof.
  revert rs. induction recs as [|rec recs IH]; intros [|r rs]; cbn;
    try apply sublist_nil_l.
  destruct r; cbn; [apply sublist_skip | apply sublist_cons]; apply IH.
Qed.

Lemma elem_of_generated recs rs g :
  g ∈ omap (λ r, r) (zip_with generated recs rs)
  ↔ ∃ i, recs !! i = Some (style g) ∧ rs !! i = Some (Fulfilled (imageUrl g)).
Proof.
  revert rs. induction recs as [|rec recs IH]; intros [|r rs]; cbn.
  - split; [by intros ?%elem_of_nil | by intros (i & ? & _)].
  - split; [by intros ?%elem_of_nil | by intros (i & ? & _)].
  - split; [by intros ?%elem_of_nil | by intros (i & _ & ?)].
  - destruct r as [url|e]; cbn.
    + rewrite elem_of_cons, IH. split.
      * intros [->|(i & ? & ?)]; [by exists 0%nat | by exists (S i)].
      * intros ([|i] & Hi & Hr); cbn in *.
        -- left. destruct g. cbn in *. congruence.
        -- right. by exists i.
    + rewrite IH. split.
      * intros (i & ? & ?). by exists (S i).
      * intros ([|i] & Hi & Hr); cbn in *; [done|]. by exists i.
Qed.

Lemma couldNotGenerate_generic :
  isCredentialError (errorMessage couldNotGenerate) = false.
Proof. vm_compute. reflexivity. Qed.

Lemma omap_Issued {A} p (f : A → Call) (l : list A) :
  omap (λ e, match e with Issued _ c => Some c | Completed _ _ => None end)
       (map (λ x, Issued p (f x)) l)
  = map f l.
Proof. induction l as [|x l IH]; [done|]. cbn. by rewrite IH. Qed.

Lemma some_succeeded_nonempty a rs :
  length rs = length (recommendations a) → 0 < succeeded rs →
  recommendations a ≠ [].
Proof.
  intros Hlen HK E. rewrite E in Hlen. destruct rs; [|done].
  unfold succeeded in HK. cbn in HK. lia.
Qed.

(** ** The orchestrator *)

(** C3: when K of the N synthesis calls succeed, 0 < K < N, the stored
    results are the K generated styles of the successful calls, in the
    order of the recommendations, whatever the order in which the calls
    settle, and the phase becomes RESULT. *)
Theorem partial_synthesis_result b a rs order w :
  let N := length (recommendations a) in
  let K := succeeded rs in
  length rs = N → order ≡ₚ seq 0 N → 0 < K < N →
  let w' := processRun toDataURL b a rs order w in
  results (state w') = omap (λ r, r) (zip_with generated (recommendations a) rs)
  ∧ length (results (state w')) = K
  ∧ style <$> results (state w') `sublist_of` recommendations a
  ∧ (∀ g, g ∈ results (state w')
          ↔ ∃ i, recommendations a !! i = Some (style g)
                 ∧ rs !! i = Some (Fulfilled (imageUrl g)))
  ∧ step (state w') = RESULT.
Proof.
  intros N K Hlen Hperm HK w'.
  destruct (processRun_finish b a rs order w Hlen Hperm) as (w0 & Hrun & Hst).
  subst w'. rewrite Hrun. unfold finish.
  rewrite length_generated by done. fold K.
  destruct (Nat.eqb_spec K 0) as [?|_]; [lia|]. cbn.
  repeat split; try done.
  - by apply length_generated.
  - apply sublist_generated.
  - by apply elem_of_generated.
  - by apply elem_of_generated.
Qed.

(** C4: when no synthesis call succeeds (in particular when there is no
    recommendation), the generic error message is shown, [setResults] is
    not called, and the phase returns to UPLOAD. *)
Theorem total_synthesis_failure b a rs order w :
  let N := length (recommendations a) in
  length rs = N → order ≡ₚ seq 0 N → succeeded rs = 0 →
  let w' := processRun toDataURL b a rs order w in
  error (state w') = Some genericMessage
  ∧ results (state w') = results (state w)
  ∧ step (state w') = UPLOAD.
Proof.
  intros N Hlen Hperm HK w'.
  destruct (processRun_finish b a rs order w Hlen Hperm) as (w0 & Hrun & Hst).
  subst w'. rewrite Hrun. unfold finish.
  rewrite length_generated, HK by done. cbn [Nat.eqb].
  unfold spawn, handleApiError. rewrite couldNotGenerate_generic.
  cbn. rewrite Hst. done.
Qed.

Lemma lookup_map {A B} (f : A → B) (l : list A) i : map f l !! i = f <$> l !! i.
Proof. revert i. induction l as [|x l IH]; intros [|i]; cbn; auto. Qed.

(** The completions of the synthesis calls, in the order in which the
    calls come back. *)
Lemma completions_of_recommendations q b recs (order : list nat) :
  omap (λ i, Completed q ∘ transformCall <$> map (λ rec, (b, name rec)) recs !! i) order
  = omap (λ i, (λ rec, Completed q (transformHairstyle_call b (name rec)))
                 <$> recs !! i) order.
Proof.
  induction order as [|i order IH]; [done|]. cbn [omap list_omap].
  rewrite IH, lookup_map. by destruct (recs !! i).
Qed.

Lemma omap_Completed q b (recs : list HairstyleRecommendation) (order : list nat) :
  omap (λ e, match e with Issued _ c => Some c | Completed _ _ => None end)
       (omap (λ i, (λ rec, Completed q (transformHairstyle_call b (name rec)))
                     <$> recs !! i) order)
  = [].
Proof.
  induction order as [|i order IH]; [done|]. cbn [omap list_omap].
  by destruct (recs !! i).
Qed.

(** [finish] issues nothing and awaits nothing. *)
Lemma trace_finish gs w : trace (exec (finish gs) w) = trace w.
Proof.
  unfold finish. destruct gs as [|g gs]; cbn [length Nat.eqb]; [|reflexivity].
  unfold spawn, handleApiError. by rewrite couldNotGenerate_generic.
Qed.

(** C5: starting a run issues the analysis call and nothing else; when
    the analysis returns N recommendations, exactly N synthesis calls are
    issued, after its completion, one per recommendation in order, each
    with the source image and the recommendation's name, and from there to
    the end of the run, whatever the calls return and in whatever order,
    the trace grows by their N completions only; when the analysis fails,
    no synthesis call is issued, up to the end of the run. *)
Theorem synthesis_calls_follow_analysis b a w :
  let p := nextPromise w in
  let w1 := exec (processImage b) w in
  let w2 := dispatch toDataURL (AnalysisSettled p (Fulfilled a)) w1 in
  trace w1 = trace w ++ [Issued p (analyzePhoto_call b)]
  ∧ trace w2
    = trace w1 ++ Completed p (analyzePhoto_call b)
        :: map (λ rec, Issued (S p) (transformHairstyle_call b (name rec)))
             (recommendations a)
  ∧ issued w2
    = issued w ++ analyzePhoto_call b
        :: map (λ rec, transformHairstyle_call b (name rec)) (recommendations a)
  ∧ (∀ e, trace (dispatch toDataURL (AnalysisSettled p (Rejected e)) w1)
          = trace w1 ++ Completed p (analyzePhoto_call b)
              :: (if isCredentialError (errorMessage e) && keySelector w
                  then [Issued (S p) openSelectKey_call] else []))
  ∧ (∀ rs order,
       length rs = length (recommendations a) →
       order ≡ₚ seq 0 (length (recommendations a)) →
       let w3 := run toDataURL (deliveries (S p) order rs) w2 in
       trace w3
       = trace w2
           ++ omap (λ i, (λ rec, Completed (S p) (transformHairstyle_call b (name rec)))
                           <$> recommendations a !! i) order
       ∧ issued w3
         = issued w ++ analyzePhoto_call b
             :: map (λ rec, transformHairstyle_call b (name rec)) (recommendations a))
  ∧ (∀ e r,
       isCredentialError (errorMessage e) && keySelector w = true →
       trace (dispatch toDataURL (SelectKeySettled (S p) r)
                (dispatch toDataURL (AnalysisSettled p (Rejected e)) w1))
       = trace w1
           ++ [ Completed p (analyzePhoto_call b);
                Issued (S p) openSelectKey_call;
                Completed (S p) openSelectKey_call ]).
Proof.
  intros p w1 w2.
  assert (trace w1 = trace w ++ [Issued p (analyzePhoto_call b)]) as H1 by done.
  assert (pending w1 !! p = Some (PAnalyze b (onAnalysis b))) as Hp
    by (cbn; apply lookup_insert_eq).
  assert (trace w2
    = trace w1 ++ Completed p (analyzePhoto_call b)
        :: map (λ rec, Issued (S p) (transformHairstyle_call b (name rec)))
             (recommendations a)) as H2.
  { subst w2. unfold dispatch. rewrite Hp, onAnalysis_fulfilled. cbn [exec].
    destruct (recommendations a) as [|rec recs] eqn:Hrecs.
    - cbn [map]. rewrite onJoin_unfold, Hrecs. cbn [zip_with omap list_omap].
      unfold finish. cbn [length Nat.eqb]. unfold spawn, handleApiError.
      rewrite couldNotGenerate_generic. done.
    - cbn. rewrite <- !app_assoc. cbn. do 3 f_equal.
      by rewrite !map_map. }
  assert (issued w2
    = issued w ++ analyzePhoto_call b
        :: map (λ rec, transformHairstyle_call b (name rec)) (recommendations a)) as H3.
  { unfold issued. rewrite H2, H1, !omap_app. cbn. rewrite <- app_assoc. cbn.
    do 2 f_equal. apply omap_Issued. }
  split; [done|]. split; [done|]. split; [done|]. split; [|split].
  - intros e. unfold dispatch. rewrite Hp, onAnalysis_rejected.
    unfold spawn, handleApiError, keySelector.
    destruct (isCredentialError (errorMessage e)); [|done].
    cbn. destruct (aistudio w) as [[[]]|]; cbn; by rewrite <- ?app_assoc.
  - intros rs order Hlen Hperm w3.
    assert (trace w3
       = trace w2
           ++ omap (λ i, (λ rec, Completed (S p) (transformHairstyle_call b (name rec)))
                           <$> recommendations a !! i) order) as H4.
    { subst w3. destruct (decide (recommendations a = [])) as [Hnil|Hne].
      - rewrite Hnil in Hperm. cbn in Hperm. apply Permutation_nil_r in Hperm as ->.
        cbn [deliveries omap list_omap]. rewrite run_nil. by rewrite app_nil_r.
      - subst w2. rewrite (dispatch_analysis_fulfilled _ _ _ _ Hp Hne).
        rewrite (join_resumes (S p) b a rs order); [|by apply pending_suspend|done..].
        rewrite trace_finish. cbn [trace joined]. f_equal.
        apply completions_of_recommendations. }
    split; [exact H4|].
    unfold issued. rewrite H4, omap_app, omap_Completed, app_nil_r. exact H3.
  - intros e r Hc. apply andb_true_iff in Hc as [Hcred Hkey].
    unfold keySelector in Hkey.
    unfold dispatch. rewrite Hp, onAnalysis_rejected.
    unfold spawn, handleApiError. rewrite Hcred.
    cbn -[lookup insert delete].
    destruct (aistudio w) as [[f]|]; [|done]. cbn in Hkey. subst f.
    cbn -[lookup insert delete]. rewrite lookup_insert_eq.
    destruct r; cbn -[lookup insert delete]; by rewrite <- !app_assoc.
Qed.


(** X23: a failure whose message carries one of the
    three markers gets the credential message, any other the generic one,
    and either way the error banner with its key button is on screen.
    With a credential failure and a host that offers a key selector the
    selector is opened and the phase is left as it is until the selector's
    promise is fulfilled, when it becomes UPLOAD; in every other case the
    phase is UPLOAD as soon as the handler returns. *)
Theorem handleApiError_classifies err w :
  let w' := exec (handleApiError err) w in
  let p := nextPromise w in
  if isCredentialError (errorMessage err) then
    error (state w') = Some credentialMessage
    ∧ errorVisible w' = true
    ∧ if keySelector w then
        trace w' = trace w ++ [Issued p openSelectKey_call]
        ∧ step (state w') = step (state w)
        ∧ step (state (dispatch toDataURL (SelectKeySettled p (Fulfilled tt)) w')) = UPLOAD
      else
        trace w' = trace w ∧ step (state w') = UPLOAD
  else
    error (state w') = Some genericMessage
    ∧ errorVisible w' = true
    ∧ trace w' = trace w
    ∧ step (state w') = UPLOAD.
Proof.
  intros w' p. subst w'. unfold handleApiError, keySelector.
  destruct (isCredentialError (errorMessage err)); [|done].
  cbn [mbind Async_bind bind effect set get exec].
  unfold dom at 1 2 3. cbn [window_aistudio].
  cbn [applyEffect applySetter aistudio].
  destruct (aistudio w) as [[[]]|]; [|done|done].
  cbn [openSelectKey_is_function]. repeat split.
  unfold dispatch. cbn. by rewrite lookup_insert_eq.
Qed.

(** The one path of [handleApiError] that does not end in
    [setStep(AppStep.UPLOAD)]: the key selector is opened and its promise
    is rejected.  The [await] throws, and the state stays as the handler
    left it when it opened the selector, whatever the phase was. *)
Lemma selector_rejection_skips_upload err e w :
  isCredentialError (errorMessage err) = true → keySelector w = true →
  let w' := exec (handleApiError err) w in
  let w'' := dispatch toDataURL (SelectKeySettled (nextPromise w) (Rejected e)) w' in
  state w'' = state w'
  ∧ step (state w'') = step (state w)
  ∧ pending w'' !! nextPromise w = None.
Proof.
  intros Hc Hk w' w''. subst w'' w'. unfold handleApiError, keySelector in *.
  rewrite Hc. cbn [mbind Async_bind bind effect set get exec].
  unfold dom at 1 2 3. cbn [window_aistudio].
  cbn [applyEffect applySetter aistudio].
  destruct (aistudio w) as [[f]|]; [|done]. cbn in Hk. subst f.
  cbn [openSelectKey_is_function]. unfold dispatch.
  cbn -[lookup insert delete]. rewrite lookup_insert_eq.
  cbn -[lookup insert delete].
  split; [reflexivity|]. split; [reflexivity|]. apply lookup_delete_eq.
Qed.

(** ** The camera *)

Lemma dom_camera w v :
  video w = Some v → canvas2d w = true →
  dom w = mkDom (Some v) (Some blankCanvas) true (aistudio w).
Proof. intros Hv Hc. unfold dom. by rewrite Hv, Hc. Qed.

(** C9: a capture stores, and hands to [processImage], the canvas encoded
    as JPEG at quality 0.9; the canvas is a square of side
    min(videoWidth, videoHeight) onto which the centred square of that
    side of the video frame has been drawn. *)
Theorem capturePhoto_crops_centered_square w v :
  video w = Some v → canvas2d w = true →
  let w' := exec (capturePhoto toDataURL) w in
  let size := Z.min (videoWidth v) (videoHeight v) in
  let captured := toDataURL (cropped v) "image/jpeg" (9 # 10) in
  image (state w') = Some captured
  ∧ issued w' = issued w ++ [analyzePhoto_call captured]
  ∧ width (cropped v) = size
  ∧ height (cropped v) = size
  ∧ ∃ d, bitmap (cropped v) = Some d
         ∧ source d = v
         ∧ (sWidth d == inject_Z size ∧ sHeight d == inject_Z size
            ∧ 2 * sx d + inject_Z size == inject_Z (videoWidth v)
            ∧ 2 * sy d + inject_Z size == inject_Z (videoHeight v)
            ∧ 0 <= sx d ∧ 0 <= sy d
            ∧ dx d == 0 ∧ dy d == 0
            ∧ dWidth d == inject_Z size ∧ dHeight d == inject_Z size)%Q.
Proof.
  intros Hv Hc w' size captured. subst w'.
  unfold capturePhoto. cbn [mbind Async_bind bind get exec].
  rewrite (dom_camera w v Hv Hc).
  cbn [videoRef canvasRef context2d]. fold captured.
  split; [by destruct (srcObject v)|].
  split.
  { unfold issued. destruct (srcObject v); cbn; by rewrite omap_app. }
  split; [done|]. split; [done|].
  eexists. split; [reflexivity|]. split; [reflexivity|]. cbn.
  unfold startX, startY, cropSize. fold size.
  assert (size <= videoWidth v)%Z by (subst size; lia).
  assert (size <= videoHeight v)%Z by (subst size; lia).
  repeat split; try reflexivity.
  - unfold Qeq, Qdiv, Qmult, Qplus, Qinv, inject_Z. cbn. lia.
  - unfold Qeq, Qdiv, Qmult, Qplus, Qinv, inject_Z. cbn. lia.
  - unfold Qle, Qdiv, Qmult, Qinv, inject_Z. cbn. lia.
  - unfold Qle, Qdiv, Qmult, Qinv, inject_Z. cbn. lia.
Qed.

(** The capture path stops every track of the stream attached to the
    video element. *)
Lemma capturePhoto_stops_tracks w v stream :
  video w = Some v → canvas2d w = true → srcObject v = Some stream →
  streams (exec (capturePhoto toDataURL) w)
  = alter (map stopTrack) stream (streams w).
Proof.
  intros Hv Hc Hs.
  unfold capturePhoto. cbn [mbind Async_bind bind get exec].
  rewrite (dom_camera w v Hv Hc).
  cbn [videoRef canvasRef context2d]. by rewrite Hs.
Qed.

(** The back button only hides the camera screen: no track is stopped. *)
Lemma dismissCamera_stops_nothing w :
  streams (exec dismissCamera w) = streams w
  ∧ showCamera (state (exec dismissCamera w)) = false.
Proof. done. Qed.

End Loop.

(** ** The two clients *)

Import GenAI Service.

(** C7, as the code has it: when the response has no text, or an empty
    one, [analyzePhoto] fails with the message "Analysis failed to parse:
    Empty response from AI engine."; when the text is not valid JSON it
    fails with "Analysis failed to parse: " followed by the message the
    engine's parser gives for that text, whatever the engine; every text
    that is valid JSON is returned as parsed, whether or not it has the
    shape of an [AnalysisResult]. *)
Theorem analyzePhoto_outcomes engine ai b response :
  ai (analyzeRequest b) = Fulfilled response →
  analyzePhoto engine ai b
  = match text response with
    | None | Some EmptyString => Rejected emptyResponseError
    | Some payload =>
        match JSON.parse_value payload with
        | Some v => Fulfilled v
        | None =>
            Rejected (Js.mkError "Error" ("Analysis failed to parse: " +:+ engine payload))
        end
    end.
Proof.
  intros H. unfold analyzePhoto, analyzeResponse, JSON.parse. rewrite H.
  destruct (text response) as [[|c s]|]; try done.
  by destruct (JSON.parse_value _).
Qed.

(** The two failures of [analyzePhoto] are plain [Error]s with the same
    prefix: they differ in the rest of their message only, and coincide
    when the engine's message is the text of the empty-response error. *)
Lemma emptyResponseError_distinct engine payload :
  Js.name emptyResponseError = Js.name (parseError engine payload)
  ∧ (emptyResponseError = parseError engine payload
     ↔ engine payload = "Empty response from AI engine.").
Proof.
  split; [reflexivity|]. unfold emptyResponseError, parseError. split.
  - intros [= H]. symmetry. exact H.
  - intros H. by rewrite H.
Qed.

(** C10: a successful [transformHairstyle] returns the PNG data-URI prefix
    followed by the data of the first part with [inlineData] among the
    parts of the first candidate; the media type of that part is not
    read. *)
Theorem transformHairstyle_labels_png ai b styleName url :
  transformHairstyle ai b styleName = Fulfilled url →
  ∃ response first rest c ps part blob,
    ai (transformRequest b styleName) = Fulfilled response
    ∧ candidates response = Some (first :: rest)
    ∧ content first = Some c
    ∧ parts c = Some ps
    ∧ List.find (λ p, bool_decide (is_Some (inlineData p))) ps = Some part
    ∧ inlineData part = Some blob
    ∧ url = "data:image/png;base64," +:+ Js.interpolate (data blob).
Proof.
  unfold transformHairstyle, transformResponse, findImagePart.
  destruct (ai _) as [response|e]; [|done].
  destruct (candidates response) as [[|first rest]|] eqn:Hc; try done.
  destruct (content first) as [c|] eqn:Hct; [|done].
  destruct (parts c) as [ps|] eqn:Hps; [|done].
  destruct (List.find _ ps) as [part|] eqn:Hf; [|done]. cbn.
  destruct (inlineData part) as [blob|] eqn:Hb; [|done].
  intros [= <-]. by exists response, first, rest, c, ps, part, blob.
Qed.

(** Two answers that differ in the declared media type of the image part
    only give the same result. *)
Lemma transformResponse_ignores_mimeType m1 m2 d others rest :
  let reply m :=
    mkResponse None
      (Some (mkCandidate
               (Some (mkContent (Some (mkPart (Some (mkBlob m d)) None :: others))))
             :: rest)) in
  transformResponse (reply m1) = transformResponse (reply m2).
Proof. reflexivity. Qed.

(** ** File input *)

(** C8: a file whose type does not start with "image/" is answered with
    the invalid-file message and nothing else: the phase and the image are
    untouched, no read and no remote call is started. *)
Theorem handleFile_rejects_non_image file w :
  Js.startsWith (type file) "image/" = false →
  let w' := exec (handleFile file) w in
  error (state w') = Some "Please upload a valid image file."
  ∧ step (state w') = step (state w)
  ∧ image (state w') = image (state w)
  ∧ trace w' = trace w
  ∧ pending w' = pending w.
Proof. intros H. unfold handleFile. rewrite H. done. Qed.

(** ** Scenarios *)


(** C2 fails on the code: the camera is opened, the browser hands out a
    stream, and the back button is pressed.  The camera screen is gone and
    the stream's track is still live. *)
Lemma dismissed_camera_stays_live :
  let w := run Sample.encoder
             [ ClickOpenStudio; UserMediaSettled 0 (Fulfilled 1%nat); ClickDismissCamera ]
             (initialWorld None) in
  showCamera (state w) = false
  ∧ video w = None
  ∧ streams w = [[ {| readyState := live |} ]]
  ∧ cameraHeld w = true.
Proof. vm_compute. done. Qed.

(** The same camera after a capture: the track is ended. *)
Lemma captured_camera_is_released :
  let w := run Sample.encoder
             [ ClickOpenStudio; UserMediaSettled 0 (Fulfilled 1%nat); ClickCapture ]
             (initialWorld None) in
  showCamera (state w) = false
  ∧ streams w = [[ {| readyState := ended |} ]]
  ∧ cameraHeld w = false.
Proof. vm_compute. done. Qed.

(** A stream that arrives after the camera screen was dismissed is neither
    attached to a video element nor stopped. *)
Lemma late_stream_is_never_released :
  let w := run Sample.encoder
             [ ClickOpenStudio; ClickDismissCamera; UserMediaSettled 0 (Fulfilled 1%nat) ]
             (initialWorld None) in
  video w = None
  ∧ pending w = ∅
  ∧ cameraHeld w = true.
Proof. vm_compute. done. Qed.

(** An analysis without recommendations: no synthesis call, the generic
    message, and back to UPLOAD. *)
Lemma no_recommendations_is_a_failure :
  let w := processRun Sample.encoder Sample.first Sample.bald [] [] (initialWorld None) in
  error (state w) = Some genericMessage
  ∧ results (state w) = []
  ∧ step (state w) = UPLOAD
  ∧ issued w = [analyzePhoto_call Sample.first].
Proof. vm_compute. done. Qed.

(** An analysis call that returns an empty payload: the generic message,
    back to UPLOAD, and no synthesis call. *)
Lemma empty_payload_is_a_provider_error :
  let ai : Provider := λ _, Fulfilled Sample.emptyReply in
  let w1 := run Sample.encoder
              [ SelectFile Sample.portrait; LoadEnd 0 Sample.first ] (initialWorld None) in
  typed (analyzePhoto Sample.engine ai Sample.first) = Some (Rejected emptyResponseError)
  ∧ let w2 := dispatch Sample.encoder (AnalysisSettled 1 (Rejected emptyResponseError)) w1 in
    error (state w2) = Some genericMessage
    ∧ step (state w2) = UPLOAD
    ∧ issued w2 = [readAsDataURL_call Sample.portrait; analyzePhoto_call Sample.first].
Proof. vm_compute. done. Qed.

(** C6 fails on the code: the analysis fails with a 403, the host's key
    selector is opened, and its promise is rejected.  The credential message
    is shown and the phase is still ANALYZING, with nothing left pending:
    the [setStep(AppStep.UPLOAD)] that ends [handleApiError] on every other
    path is never reached. *)
Lemma credential_error_can_stay_in_analyzing :
  let w1 := run Sample.encoder
              [ SelectFile Sample.portrait; LoadEnd 0 Sample.first;
                AnalysisSettled 1 (Rejected Sample.forbidden) ]
              (initialWorld (Some Sample.host)) in
  let w2 := dispatch Sample.encoder (SelectKeySettled 2 (Rejected Sample.noKey)) w1 in
  isCredentialError (errorMessage Sample.forbidden) = true
  ∧ error (state w1) = Some credentialMessage
  ∧ step (state w1) = ANALYZING
  ∧ step (state w2) = ANALYZING
  ∧ pending w2 = ∅.
Proof. vm_compute. done. Qed.

(** C7 fails as stated: the text ["{}"] is valid JSON that lacks every
    required property, and [analyzePhoto] returns it. *)
Lemma analyzePhoto_returns_nonconforming_json :
  let ai : Provider := λ _, Fulfilled Sample.emptyObjectReply in
  analyzePhoto Sample.engine ai Sample.first = Fulfilled (JSON.Object [])
  ∧ conforms responseSchema (JSON.Object []) = false
  ∧ asAnalysisResult (JSON.Object []) = None.
Proof. vm_compute. done. Qed.

(** How a parse failure is classified downstream follows the engine's
    message: where the message quotes a text that carries a credential
    marker, the failure is shown as a credential failure; where it does
    not, as a generic one. *)
Lemma parse_failure_class_follows_the_engine :
  let ai : Provider := λ _, Fulfilled Sample.refusalReply in
  analyzePhoto Sample.engine ai Sample.first
  = Rejected (parseError Sample.engine "API_KEY invalid")
  ∧ isCredentialError (errorMessage (parseError Sample.engine "API_KEY invalid")) = true
  ∧ analyzePhoto Sample.terse ai Sample.first
    = Rejected (parseError Sample.terse "API_KEY invalid")
  ∧ isCredentialError (errorMessage (parseError Sample.terse "API_KEY invalid")) = false.
Proof. vm_compute. done. Qed.

(** The example of the specification: B fails, A, C and D succeed. *)
Lemma Sample_order_perm : Sample.order ≡ₚ seq 0 4.
Proof.
  unfold Sample.order. cbn.
  transitivity [0; 2; 3; 1]%nat; [apply Permutation_swap|].
  apply Permutation_skip. symmetry.
  apply (Permutation_cons_append [2; 3]%nat 1%nat).
Qed.

Lemma partial_synthesis_result_witness :
  let a := Sample.oval in
  let rs := Sample.outcomes in
  (length rs = length (recommendations a)
   ∧ Sample.order ≡ₚ seq 0 (length (recommendations a))
   ∧ 0 < succeeded rs < length (recommendations a))
  ∧ let w' := processRun Sample.encoder Sample.first a rs Sample.order (initialWorld None) in
    results (state w') = omap (λ r, r) (zip_with generated (recommendations a) rs)
    ∧ length (results (state w')) = succeeded rs
    ∧ style <$> results (state w') `sublist_of` recommendations a
    ∧ (∀ g, g ∈ results (state w')
            ↔ ∃ i, recommendations a !! i = Some (style g)
                   ∧ rs !! i = Some (Fulfilled (imageUrl g)))
    ∧ step (state w') = RESULT.
Proof.
  intros a rs.
  assert (0 < succeeded rs < length (recommendations a)) as HK by (vm_compute; lia).
  split; [split; [reflexivity | split; [apply Sample_order_perm | exact HK]] |].
  apply (partial_synthesis_result Sample.encoder Sample.first a rs Sample.order
           (initialWorld None));
    [reflexivity | apply Sample_order_perm | exact HK].
Defined.

Lemma total_synthesis_failure_witness :
  let a := Sample.oval in
  let rs := Sample.allFail in
  (length rs = length (recommendations a)
   ∧ Sample.order ≡ₚ seq 0 (length (recommendations a))
   ∧ succeeded rs = 0)
  ∧ let w' := processRun Sample.encoder Sample.first a rs Sample.order (initialWorld None) in
    error (state w') = Some genericMessage
    ∧ results (state w') = results (state (initialWorld None))
    ∧ step (state w') = UPLOAD.
Proof.
  intros a rs.
  split; [split; [reflexivity | split; [apply Sample_order_perm | reflexivity]] |].
  apply (total_synthesis_failure Sample.encoder Sample.first a rs Sample.order
           (initialWorld None));
    [reflexivity | apply Sample_order_perm | reflexivity].
Defined.

Lemma synthesis_calls_follow_analysis_witness :
  let b := Sample.first in
  let a := Sample.oval in
  let rs := Sample.outcomes in
  let w := initialWorld None in
  (length rs = length (recommendations a)
   ∧ Sample.order ≡ₚ seq 0 (length (recommendations a)))
  ∧ let p := nextPromise w in
    let w1 := exec (processImage b) w in
    let w2 := dispatch Sample.encoder (AnalysisSettled p (Fulfilled a)) w1 in
    let w3 := run Sample.encoder (deliveries (S p) Sample.order rs) w2 in
    trace w3
    = trace w2
        ++ omap (λ i, (λ rec, Completed (S p) (transformHairstyle_call b (name rec)))
                        <$> recommendations a !! i) Sample.order
    ∧ issued w3
      = issued w ++ analyzePhoto_call b
          :: map (λ rec, transformHairstyle_call b (name rec)) (recommendations a).
Proof.
  intros b a rs w. split; [split; [reflexivity | apply Sample_order_perm]|].
  destruct (synthesis_calls_follow_analysis Sample.encoder b a w)
    as (_ & _ & _ & _ & H & _).
  apply (H rs Sample.order); [reflexivity | apply Sample_order_perm].
Defined.


Lemma analyzePhoto_outcomes_witness :
  let ai : Provider := λ _, Fulfilled Sample.truncatedReply in
  ai (analyzeRequest Sample.first) = Fulfilled Sample.truncatedReply
  ∧ analyzePhoto Sample.engine ai Sample.first
    = Rejected (Js.mkError "Error"
                  ("Analysis failed to parse: " +:+ Sample.engine "[1, 2")).
Proof.
  split; [reflexivity|].
  apply (analyzePhoto_outcomes Sample.engine (λ _, Fulfilled Sample.truncatedReply)
           Sample.first Sample.truncatedReply).
  reflexivity.
Defined.

Lemma transformHairstyle_labels_png_witness :
  let ai : Provider := λ _, Fulfilled Sample.jpegReply in
  transformHairstyle ai Sample.first "Buzz Cut"
  = Fulfilled "data:image/png;base64,/9j/4AAQSkZJRg=="
  ∧ ∃ response first rest c ps part blob,
      ai (transformRequest Sample.first "Buzz Cut") = Fulfilled response
      ∧ candidates response = Some (first :: rest)
      ∧ content first = Some c
      ∧ parts c = Some ps
      ∧ List.find (λ p, bool_decide (is_Some (inlineData p))) ps = Some part
      ∧ inlineData part = Some blob
      ∧ "data:image/png;base64,/9j/4AAQSkZJRg=="
        = "data:image/png;base64," +:+ Js.interpolate (data blob).
Proof.
  split; [reflexivity|].
  apply (transformHairstyle_labels_png (λ _, Fulfilled Sample.jpegReply)
           Sample.first "Buzz Cut").
  reflexivity.
Defined.

Lemma handleFile_rejects_non_image_witness :
  let w := initialWorld None in
  Js.startsWith (type Sample.notes) "image/" = false
  ∧ let w' := exec (handleFile Sample.notes) w in
    error (state w') = Some "Please upload a valid image file."
    ∧ step (state w') = step (state w)
    ∧ image (state w') = image (state w)
    ∧ trace w' = trace w
    ∧ pending w' = pending w.
Proof.
  split; [reflexivity|].
  apply (handleFile_rejects_non_image Sample.notes (initialWorld None)).
  reflexivity.
Defined.

Lemma capturePhoto_crops_centered_square_witness :
  let w := Sample.cameraOpen in
  let v := Sample.liveVideo in
  (video w = Some v ∧ canvas2d w = true)
  ∧ let w' := exec (capturePhoto Sample.encoder) w in
    let size := Z.min (videoWidth v) (videoHeight v) in
    let captured := Sample.encoder (cropped v) "image/jpeg" (9 # 10) in
    image (state w') = Some captured
    ∧ issued w' = issued w ++ [analyzePhoto_call captured]
    ∧ width (cropped v) = size
    ∧ height (cropped v) = size
    ∧ ∃ d, bitmap (cropped v) = Some d
           ∧ source d = v
           ∧ (sWidth d == inject_Z size ∧ sHeight d == inject_Z size
              ∧ 2 * sx d + inject_Z size == inject_Z (videoWidth v)
              ∧ 2 * sy d + inject_Z size == inject_Z (videoHeight v)
              ∧ 0 <= sx d ∧ 0 <= sy d
              ∧ dx d == 0 ∧ dy d == 0
              ∧ dWidth d == inject_Z size ∧ dHeight d == inject_Z size)%Q.
Proof.
  intros w v. split; [split; reflexivity|].
  apply (capturePhoto_crops_centered_square Sample.encoder w v); reflexivity.
Defined.

(** * Further properties *)

Import Messages Resume Invariant.

(** ** Strings *)

Lemma append_nil_l s : "" +:+ s = s.
Proof. reflexivity. Qed.

Lemma append_cons a s t : String a s +:+ t = String a (s +:+ t).
Proof. reflexivity. Qed.

Lemma prefix_spec p s : String.prefix p s = true ↔ ∃ post, s = p +:+ post.
Proof.
  revert s. induction p as [|c p IH]; intros s.
  - split; [intros _; by exists s | intros _; by destruct s].
  - destruct s as [|a s]; cbn; [split; [done | by intros [? ?]]|].
    destruct (ascii_dec c a) as [->|Hne].
    + rewrite IH. split; intros [post E]; exists post.
      * cbn. by rewrite E.
      * cbn in E. by injection E.
    + split; [done|]. intros [post [= ? ?]]. done.
Qed.

(** [s.includes(sub)] holds exactly when [sub] occurs somewhere in [s]. *)
Lemma includes_spec s sub :
  Js.includes s sub = true ↔ ∃ pre post, s = pre +:+ sub +:+ post.
Proof.
  assert (∀ s, String.prefix sub s = true → ∃ pre post, s = pre +:+ sub +:+ post) as Hhere.
  { intros s0 [post E]%prefix_spec. exists "", post. exact E. }
  induction s as [|a s IH]; cbn [Js.includes].
  - destruct (String.prefix sub "") eqn:E; [by split; auto|].
    split; [done|]. intros (pre & post & E').
    destruct pre; [|done]. cbn in E'.
    assert (String.prefix sub "" = true) by (apply prefix_spec; eauto). congruence.
  - destruct (String.prefix sub (String a s)) eqn:E; [by split; auto|].
    rewrite IH. split.
    + intros (pre & post & ->). by exists (String a pre), post.
    + intros ([|a' pre] & post & E'); cbn in E'.
      * assert (String.prefix sub (String a s) = true) by (apply prefix_spec; eauto).
        congruence.
      * injection E' as -> ->. by exists pre, post.
Qed.

Lemma includes_char s c :
  Js.includes s (String c "") = bool_decide (is_Some (Js.after c s)).
Proof.
  induction s as [|a s IH]; [done|]. cbn -[Ascii.eqb].
  destruct (ascii_dec c a) as [->|Hne].
  - destruct (Ascii.eqb_spec a a); [|done].
    rewrite bool_decide_eq_true_2 by eauto. by destruct s.
  - destruct (Ascii.eqb_spec a c) as [->|_]; [done|]. apply IH.
Qed.

Lemma after_before c s : Js.after c (Js.before c s) = None.
Proof.
  induction s as [|a s IH]; [done|]. cbn -[Ascii.eqb].
  destruct (Ascii.eqb_spec a c) as [->|Hne]; [done|]. cbn -[Ascii.eqb].
  by destruct (Ascii.eqb_spec a c).
Qed.

Lemma after_None_app c s t :
  Js.after c s = None → Js.after c (s +:+ String c t) = Some t.
Proof.
  induction s as [|a s IH]; rewrite ?append_nil_l, ?append_cons;
    cbn -[Ascii.eqb]; intros H.
  - destruct (Ascii.eqb_spec c c) as [_|Hne]; [done | by destruct Hne].
  - destruct (Ascii.eqb a c); [done|]. by apply IH.
Qed.

Lemma before_None_app c s t :
  Js.after c s = None → Js.before c (s +:+ String c t) = s.
Proof.
  induction s as [|a s IH]; rewrite ?append_nil_l, ?append_cons;
    cbn -[Ascii.eqb]; intros H.
  - destruct (Ascii.eqb_spec c c) as [_|Hne]; [done | by destruct Hne].
  - destruct (Ascii.eqb a c); [done|]. by rewrite IH.
Qed.

Lemma before_None c s : Js.after c s = None → Js.before c s = s.
Proof.
  induction s as [|a s IH]; cbn -[Ascii.eqb]; [done|].
  destruct (Ascii.eqb a c); [done|]. intros H. by rewrite IH.
Qed.

(** ** The two clients, continued *)

(** X1: the value [cleanBase64] returns never holds a comma, so cleaning twice
    is cleaning once. *)
Theorem cleanBase64_has_no_comma base64 :
  Js.includes (cleanBase64 base64) "," = false
  ∧ cleanBase64 (cleanBase64 base64) = cleanBase64 base64.
Proof.
  assert (Js.includes (cleanBase64 base64) "," = false) as H.
  { unfold cleanBase64. destruct (Js.includes base64 ",") eqn:E; [|done].
    unfold Js.split_1. rewrite includes_char in E.
    destruct (Js.after "," base64) as [rest|]; [|done]. cbn.
    rewrite includes_char, after_before. done. }
  split; [done|]. unfold cleanBase64 at 1. by rewrite H.
Qed.

(** X2: of a data URI, header, comma, payload, [cleanBase64] keeps the payload;
    whatever follows a second comma is dropped with that comma. *)
Theorem cleanBase64_data_uri header payload :
  Js.includes header "," = false → Js.includes payload "," = false →
  cleanBase64 (header +:+ "," +:+ payload) = payload
  ∧ ∀ rest, cleanBase64 (header +:+ "," +:+ payload +:+ "," +:+ rest) = payload.
Proof.
  rewrite !includes_char. intros Hh Hp.
  assert (Js.after "," header = None) as Hh' by (by destruct (Js.after _ header)).
  assert (Js.after "," payload = None) as Hp' by (by destruct (Js.after _ payload)).
  split; [|intros rest]; unfold cleanBase64, Js.split_1; rewrite includes_char.
  - change (header +:+ "," +:+ payload) with (header +:+ String "," payload).
    rewrite (after_None_app _ _ _ Hh'). cbn. by apply before_None.
  - change (header +:+ "," +:+ payload +:+ "," +:+ rest)
      with (header +:+ String "," (payload +:+ String "," rest)).
    rewrite (after_None_app _ _ _ Hh'). cbn. by apply before_None_app.
Qed.

(** X3: both requests carry the payload of the data URI as their first part and
    declare it a JPEG, whatever media type the URI's header names; the
    second part is the prompt. *)
Theorem requests_send_payload_as_jpeg header payload styleName :
  Js.includes header "," = false → Js.includes payload "," = false →
  let base64Image := header +:+ "," +:+ payload in
  contents (analyzeRequest base64Image)
  = [ mkPart (Some (mkBlob (Some "image/jpeg") (Some payload))) None;
      mkPart None (Some analysisPrompt) ]
  ∧ contents (transformRequest base64Image styleName)
    = [ mkPart (Some (mkBlob (Some "image/jpeg") (Some payload))) None;
        mkPart None (Some (stylePrompt styleName)) ].
Proof.
  intros Hh Hp base64Image.
  assert (cleanBase64 base64Image = payload) as E.
  { unfold cleanBase64, Js.split_1. subst base64Image.
    rewrite includes_char in Hh, Hp. rewrite includes_char.
    assert (Js.after "," header = None) as Hh' by (by destruct (Js.after _ header)).
    assert (Js.after "," payload = None) as Hp' by (by destruct (Js.after _ payload)).
    change (header +:+ "," +:+ payload) with (header +:+ String "," payload).
    rewrite (after_None_app _ _ _ Hh'). cbn. by apply before_None. }
  unfold analyzeRequest, transformRequest. cbn [contents]. by rewrite E.
Qed.

(** X4: the test of [handleApiError]: a message is a credential failure exactly
    when one of the three markers occurs somewhere in it. *)
Theorem credential_markers_match_anywhere m :
  isCredentialError m = true
  ↔ ∃ marker pre post,
      marker ∈ ["Requested entity was not found"; "API_KEY"; "403"]
      ∧ m = pre +:+ marker +:+ post.
Proof.
  unfold isCredentialError. rewrite !orb_true_iff, !includes_spec. split.
  - intros [[(pre & post & ->)|(pre & post & ->)]|(pre & post & ->)];
      eexists _, pre, post; (split; [|reflexivity]);
      apply list_elem_of_In; cbn; tauto.
  - intros (marker & pre & post & Hm & ->).
    apply list_elem_of_In in Hm. cbn in Hm.
    destruct Hm as [<-|[<-|[<-|[]]]]; eauto.
Qed.

(** X5: [transformHairstyle] is fulfilled exactly when the request is, the
    first candidate of the response has a content with parts, and one of
    these parts has [inlineData]. *)
Theorem transformHairstyle_succeeds_iff ai b styleName :
  Js.is_fulfilled (transformHairstyle ai b styleName) = true
  ↔ ∃ response first rest c ps,
      ai (transformRequest b styleName) = Fulfilled response
      ∧ candidates response = Some (first :: rest)
      ∧ content first = Some c
      ∧ parts c = Some ps
      ∧ Exists (λ p, is_Some (inlineData p)) ps.
Proof.
  unfold transformHairstyle, transformResponse, findImagePart. split.
  - destruct (ai _) as [response|e]; [|done].
    destruct (candidates response) as [[|first rest]|] eqn:Hc; try done.
    destruct (content first) as [c|] eqn:Hct; [|done].
    destruct (parts c) as [ps|] eqn:Hps; [|done].
    destruct (List.find _ ps) as [part|] eqn:Hf; [|done].
    intros _. exists response, first, rest, c, ps.
    split; [done|]. split; [done|]. split; [done|]. split; [done|].
    apply find_some in Hf as [Hin Hp]. apply Exists_exists.
    exists part. split; [by apply list_elem_of_In|]. by apply bool_decide_eq_true in Hp.
  - intros (response & first & rest & c & ps & -> & -> & -> & -> & Hex).
    apply Exists_exists in Hex as (part & Hin & Hp).
    destruct (List.find _ ps) as [part'|] eqn:Hf.
    + apply find_some in Hf as [_ Hp']. apply bool_decide_eq_true in Hp' as [blob Hb].
      cbn. by rewrite Hb.
    + apply find_none with (x := part) in Hf; [|by apply list_elem_of_In].
      apply bool_decide_eq_false in Hf. done.
Qed.

(** X6: a rejection of [transformHairstyle] is the rejection of the request,
    the visualizer error, or the type error of a content without parts. *)
Theorem transformHairstyle_failures ai b styleName e :
  transformHairstyle ai b styleName = Rejected e →
  ai (transformRequest b styleName) = Rejected e
  ∨ e = visualizerError
  ∨ e = partsTypeError.
Proof.
  unfold transformHairstyle, transformResponse, findImagePart.
  destruct (ai _) as [response|e']; [|intros [= ->]; by left].
  destruct (candidates response) as [[|first rest]|]; cbn;
    try (intros [= <-]; right; by left).
  destruct (content first) as [c|]; cbn; [|intros [= <-]; right; by left].
  destruct (parts c) as [ps|]; [|intros [= <-]; right; by right].
  destruct (List.find _ ps) as [part|]; cbn; [|intros [= <-]; right; by left].
  destruct (inlineData part); [done|]. intros [= <-]. right; by left.
Qed.

(** ** The response schema and the declared type *)

Lemma asString_conforms v : conforms (STRING None) v = true ↔ is_Some (asString v).
Proof. destruct v; cbn; split; try done; by intros [? ?]. Qed.

Lemma asTrendLevel_conforms v :
  conforms (STRING (Some ["Classic"; "Trending"; "Bold"])) v = true
  ↔ is_Some (asTrendLevel v).
Proof.
  destruct v; cbn; try (split; [done | by intros [? ?]]).
  rewrite bool_decide_eq_true, !elem_of_cons.
  destruct (String.eqb_spec s "Classic") as [->|?]; [split; eauto|].
  destruct (String.eqb_spec s "Trending") as [->|?]; [split; eauto|].
  destruct (String.eqb_spec s "Bold") as [->|?]; [split; eauto|].
  split; [|by intros [? ?]]. intros [?|[?|[?|?%elem_of_nil]]]; done.
Qed.

Ltac absurd_shape :=
  split;
  [ let H := fresh in
    intros H; decompose [and] H; clear H;
    first [ discriminate
          | match goal with H' : is_Some None |- _ => by destruct H' end ]
  | by intros [? ?] ].

Lemma asRecommendation_conforms v :
  conforms recommendationSchema v = true ↔ is_Some (asRecommendation v).
Proof.
  destruct v as [| | | | |ms]; try (split; [done | by intros [? ?]]).
  unfold asRecommendation, field, recommendationSchema.
  cbn [conforms forallb].
  rewrite !andb_true_iff, !bool_decide_eq_true.
  destruct (JSON.get "id" ms) as [[]|]; cbn; try absurd_shape.
  destruct (JSON.get "name" ms) as [[]|]; cbn; try absurd_shape.
  destruct (JSON.get "description" ms) as [[]|]; cbn; try absurd_shape.
  destruct (JSON.get "whyItWorks" ms) as [[]|]; cbn; try absurd_shape.
  destruct (JSON.get "trendLevel" ms) as [v|]; cbn; [|absurd_shape].
  pose proof (asTrendLevel_conforms v) as Ht.
  destruct (asTrendLevel v); cbn.
  - split; [eauto|]. intros _. repeat split; eauto. by apply Ht.
  - split; [|by intros [? ?]]. intros (_ & _ & _ & _ & _ & H & _).
    destruct Ht as [Ht _]. destruct Ht as [? ?]; [|done].
    destruct v; done.
Qed.

Lemma mapM_asRecommendation l :
  forallb (conforms recommendationSchema) l = true ↔ is_Some (mapM asRecommendation l).
Proof.
  rewrite forallb_forall, mapM_is_Some, Forall_forall.
  split; intros H x Hx.
  - apply asRecommendation_conforms, H. by apply list_elem_of_In.
  - apply asRecommendation_conforms, H. by apply list_elem_of_In.
Qed.

(** X7: the schema [analyzePhoto] sends with its request accepts exactly the
    values that have the shape of [AnalysisResult]: an object with string
    [faceShape] and [hairTexture] and an array [recommendations] of
    objects with the five properties of [HairstyleRecommendation], the
    trend level being one of the three names. *)
Theorem responseSchema_is_AnalysisResult v :
  conforms responseSchema v = true ↔ is_Some (asAnalysisResult v).
Proof.
  destruct v as [| | | | |ms]; try (split; [done | by intros [? ?]]).
  unfold asAnalysisResult, field, responseSchema.
  cbn [conforms forallb]. fold recommendationSchema.
  rewrite !andb_true_iff, !bool_decide_eq_true.
  destruct (JSON.get "faceShape" ms) as [[]|]; cbn; try absurd_shape.
  destruct (JSON.get "hairTexture" ms) as [[]|]; cbn; try absurd_shape.
  destruct (JSON.get "recommendations" ms) as [[| | | |l|]|]; cbn; try absurd_shape.
  pose proof (mapM_asRecommendation l) as Hl.
  destruct (mapM asRecommendation l); cbn.
  - split; [eauto|]. intros _. repeat split; eauto. by apply Hl.
  - split; [|by intros [? ?]]. intros (_ & _ & _ & H & _).
    apply Hl in H as [? ?]. done.
Qed.


(** ** What every reachable state satisfies *)

(** Code that is safe for [I] leaves a world whose state satisfies [I] and
    whose pending continuations are safe. *)
Lemma exec_safe I p : ∀ w,
  safe I p (state w) →
  (∀ q pend, pending w !! q = Some pend → pendingSafe I pend) →
  worldSafe I (exec p w).
Proof.
  assert (∀ w cs pend, I (state w) → pendingSafe I pend →
    (∀ q pend, pending w !! q = Some pend → pendingSafe I pend) →
    worldSafe I (suspend cs pend w)) as Hsusp.
  { intros w cs pend HI Hk Hp. split; [done|]. intros q pend'. cbn.
    rewrite lookup_insert. case_decide; [by intros [= <-]|]. apply Hp. }
  induction p as [a|e|s k IH|e k IH|k IH|f k IH|b k IH|cs k IH|k IH|c k IH];
    intros w Hs Hp; cbn in *.
  - done.
  - done.
  - apply IH; done.
  - apply IH; [by rewrite state_applyEffect|]. by destruct e.
  - apply IH; [apply Hs|done].
  - destruct Hs. apply Hsusp; done.
  - destruct Hs. apply Hsusp; done.
  - destruct cs; [by apply IH|]. destruct Hs. apply Hsusp; done.
  - destruct Hs. apply Hsusp; done.
  - destruct Hs. apply Hsusp; done.
Qed.

Section Preservation.

Variable toDataURL : HTMLCanvasElement → string → Q → string.

Lemma dispatch_safe I ev w :
  handlersSafe I toDataURL → worldSafe I w → worldSafe I (dispatch toDataURL ev w).
Proof.
  intros HS [HI Hp].
  destruct (HS _ HI) as (Hfile & Hdrag & Hdrop & Hstart & Hcap & Hdis & Hreset & Hkey & Hclose & Htick).
  assert (∀ q c, ∀ r pend, pending (settled q c w) !! r = Some pend → pendingSafe I pend) as Hdel.
  { intros q c r pend. cbn. rewrite lookup_delete. case_decide; [done|]. apply Hp. }
  destruct ev; cbn [dispatch].
  - destruct (uploadVisible w); [|done]. by apply exec_safe.
  - destruct (uploadVisible w); [|done]. by apply exec_safe.
  - destruct (uploadVisible w); [|done]. by apply exec_safe.
  - destruct (pending w !! p) as [[]|] eqn:E; try done.
    apply exec_safe; [|apply Hdel]. by apply (Hp _ _ E).
  - destruct (pending w !! p) as [[]|] eqn:E; try done.
    apply exec_safe; [|apply Hdel]. by apply (Hp _ _ E).
  - destruct (pending w !! p) as [[]|] eqn:E; try done.
    destruct (calls !! slot) as [c|]; [|done].
    destruct (slots !! slot) as [[]|]; try done.
    cbn zeta. destruct (mapM _ _).
    + apply exec_safe.
      * cbn [state settled]. rewrite state_caught. by apply (Hp _ _ E).
      * intros q pend. cbn [pending settled].
        rewrite pending_caught, lookup_delete. case_decide; [done|]. apply Hp.
    + split; [cbn [state slotFilled]; by rewrite state_caught|].
      intros q pend. cbn [pending slotFilled]. rewrite pending_caught, lookup_insert.
      case_decide; [|apply Hp]. intros [= <-]. apply (Hp _ _ E).
  - destruct (pending w !! p) as [[]|] eqn:E; try done.
    apply exec_safe; [|apply Hdel]. by apply (Hp _ _ E).
  - destruct (pending w !! p) as [[]|] eqn:E; try done.
    destruct r.
    + apply exec_safe; [|apply Hdel]. by apply (Hp _ _ E).
    + apply exec_safe; [|apply Hdel]. by apply (Hp _ _ E).
  - destruct (uploadVisible w); [|done]. by apply exec_safe.
  - destruct (cameraVisible w); [|done]. by apply exec_safe.
  - destruct (cameraVisible w); [|done]. by apply exec_safe.
  - by apply exec_safe.
  - destruct (errorVisible w); [|done]. by apply exec_safe.
  - destruct (errorVisible w); [|done]. by apply exec_safe.
  - done.
  - destruct (loadingVisible w); [|done]. by apply exec_safe.
Qed.

Lemma run_safe I evs : ∀ w,
  handlersSafe I toDataURL → worldSafe I w → worldSafe I (run toDataURL evs w).
Proof.
  induction evs as [|ev evs IH]; intros w HS Hw; [done|].
  rewrite run_cons. apply IH; [done|]. by apply dispatch_safe.
Qed.

End Preservation.

Ltac inv_split :=
  unfold sessionInv, resultsShown, messageInRange, bannerFixed in *;
  cbn -[Nat.modulo LOADING_MESSAGES bannerTexts] in *.

Ltac inv_solve :=
  inv_split;
  repeat match goal with
  | H : _ ∧ _ |- _ => destruct H
  end;
  repeat split; intros;
  try done; try (simplify_eq; apply list_elem_of_In; cbn; tauto); eauto.

Lemma safe_spawn I p : ∀ st, safe I (spawn p) st ↔ safe I p st.
Proof.
  unfold spawn.
  induction p as [a|e|s k IH|e k IH|k IH|f k IH|b k IH|cs k IH|k IH|c k IH];
    intros st; cbn; try done.
  - split; intros H d; by apply IH.
  - split; intros [? H]; (split; [done|]); intros r st' ?; by apply IH, H.
  - split; intros [? H]; (split; [done|]); intros r st' ?; by apply IH, H.
  - destruct cs; [apply IH|].
    split; intros [? H]; (split; [done|]); intros r st' ?; by apply IH, H.
  - split; intros [? H]; (split; [done|]); intros r st' ?; by apply IH, H.
  - split; intros [? H]; (split; [done|]); intros r st' ?; by apply IH, H.
Qed.

Lemma safe_handleApiError e st :
  sessionInv st → safe sessionInv (handleApiError e) st.
Proof.
  intros HI. unfold handleApiError.
  destruct (isCredentialError (errorMessage e)); cbn -[sessionInv].
  - intros d. destruct (window_aistudio d) as [[[]]|]; cbn -[sessionInv].
    + split; [inv_solve|]. intros [|] st' HI'; cbn -[sessionInv]; inv_solve.
    + inv_solve.
    + inv_solve.
  - inv_solve.
Qed.

Lemma safe_onJoin b a rs st :
  sessionInv st → safe sessionInv (onJoin b a rs) st.
Proof.
  intros HI. rewrite onJoin_unfold. unfold finish.
  destruct (omap _ _) as [|g gs] eqn:E; cbn [length Nat.eqb].
  - by apply safe_spawn, safe_handleApiError.
  - cbn -[sessionInv]. inv_solve.
Qed.

Lemma safe_processImage b st :
  sessionInv st → safe sessionInv (processImage b) st.
Proof.
  intros HI. rewrite processImage_unfold. cbn [safe].
  split; [inv_solve|]. intros [a|e] st' HI'.
  - rewrite onAnalysis_fulfilled. cbn [safe].
    assert (sessionInv (write (setStep GENERATING) (write (setAnalysis (Some a)) st')))
      as HI'' by inv_solve.
    destruct (map _ (recommendations a)).
    + by apply safe_onJoin.
    + split; [done|]. intros rs st'' ?. by apply safe_onJoin.
  - rewrite onAnalysis_rejected. by apply safe_spawn, safe_handleApiError.
Qed.

(** Every handler keeps the three invariants, across its [await]s. *)
Lemma handlers_keep_sessionInv toDataURL : handlersSafe sessionInv toDataURL.
Proof.
  intros st HI.
  split; [|split; [|split; [|split; [|split; [|split; [|split; [|split; [|split]]]]]]]].
  - intros file. unfold handleFile. destruct (negb _); cbn -[sessionInv processImage spawn].
    + inv_solve.
    + split; [done|]. intros r st' HI'. apply safe_spawn, safe_processImage. inv_solve.
  - intros t. unfold handleDrag. destruct (_ || _); [inv_solve|].
    destruct (String.eqb _ _); inv_solve.
  - intros [file|]; unfold handleDrop, handleFile; [|inv_solve].
    destruct (negb _); cbn -[sessionInv processImage spawn].
    + inv_solve.
    + split; [inv_solve|]. intros r st' HI'. apply safe_spawn, safe_processImage. inv_solve.
  - unfold startCamera. cbn -[sessionInv]. split; [inv_solve|].
    intros [sid|e] st' HI'; cbn -[sessionInv].
    + intros d. destruct (videoRef d); cbn -[sessionInv]; done.
    + inv_solve.
  - unfold capturePhoto. cbn -[sessionInv processImage spawn]. intros d.
    destruct (videoRef d) as [v|]; [|done]. destruct (canvasRef d); [|done].
    destruct (context2d d); [|done]. cbn -[sessionInv processImage spawn].
    destruct (srcObject v); cbn -[sessionInv processImage spawn];
      apply safe_spawn, safe_processImage; inv_solve.
  - inv_solve.
  - inv_solve. lia.
  - unfold updateKey. cbn -[sessionInv]. intros d.
    destruct (window_aistudio d) as [[[]]|]; cbn -[sessionInv].
    + split; [done|]. intros [|] st' HI'; cbn -[sessionInv]; inv_solve.
    + done.
    + inv_solve.
  - inv_solve.
  - inv_solve. apply Nat.mod_upper_bound. done.
Qed.

Section Reachable.

Variable toDataURL : HTMLCanvasElement → string → Q → string.

(** The three invariants hold in every reachable state. *)
Lemma reachable_sessionInv host evs :
  sessionInv (state (run toDataURL evs (initialWorld host))).
Proof.
  apply (run_safe toDataURL sessionInv evs); [apply handlers_keep_sessionInv|].
  split; [|by intros p pend; cbn; rewrite lookup_empty].
  repeat split; try done.
  unfold messageInRange. cbn. lia.
Qed.

(** X8: whatever events the component has handled since it was mounted, phase
    RESULT comes with at least one stored result: the results screen,
    rendered for [step === AppStep.RESULT && results.length > 0], is never
    held back by an empty list. *)
Theorem result_phase_has_results host evs :
  let w := run toDataURL evs (initialWorld host) in
  step (state w) = RESULT → results (state w) ≠ [].
Proof. intros w. apply (reachable_sessionInv host evs). Qed.

(** X9: whatever events the component has handled, one of its four screens
    (upload, camera, loading, results) is rendered. *)
Theorem some_screen_is_rendered host evs :
  let w := run toDataURL evs (initialWorld host) in
  uploadVisible w || cameraVisible w || loadingVisible w || resultsVisible w = true.
Proof.
  intros w. pose proof (reachable_sessionInv host evs) as (Hr & _).
  fold w in Hr. unfold resultsShown in Hr.
  unfold uploadVisible, cameraVisible, loadingVisible, resultsVisible.
  destruct (showCamera (state w)); [by rewrite orb_true_r|].
  destruct (step (state w)) eqn:E; cbn; try done.
  destruct (results (state w)); [by destruct Hr|done].
Qed.

(** X10: whatever events the component has handled, [loadingMsgIdx] is an index
    of [LOADING_MESSAGES]: the loading screen never renders an undefined
    message. *)
Theorem loading_message_is_defined host evs :
  let w := run toDataURL evs (initialWorld host) in
  is_Some (LOADING_MESSAGES !! loadingMsgIdx (state w)).
Proof.
  intros w. apply lookup_lt_is_Some_2.
  apply (reachable_sessionInv host evs).
Qed.

(** X11: whatever events the component has handled, the error is [null] or one
    of four fixed texts: the text of an error thrown by a remote call is
    never shown, and the error is never the empty string. *)
Theorem banner_shows_fixed_texts host evs :
  let w := run toDataURL evs (initialWorld host) in
  error (state w) ∈ None :: (Some <$> bannerTexts).
Proof.
  intros w. pose proof (reachable_sessionInv host evs) as (_ & _ & Hb).
  fold w in Hb. unfold bannerFixed in Hb.
  destruct (error (state w)) as [m|]; [|apply list_elem_of_here].
  apply list_elem_of_further, list_elem_of_fmap_2. by apply Hb.
Qed.

End Reachable.

(** ** The handlers, event by event *)

Lemma existsb_isLive_stopped l : existsb isLive (map stopTrack l) = false.
Proof. induction l as [|t l IH]; [done|]. cbn. exact IH. Qed.

Lemma map_stopTrack_replicate n t :
  map stopTrack (replicate n t) = replicate n {| readyState := ended |}.
Proof. induction n as [|n IH]; [done|]. cbn. by rewrite IH. Qed.

Lemma cameraHeld_app_stopped ss l :
  existsb (existsb isLive) (ss ++ [map stopTrack l]) = existsb (existsb isLive) ss.
Proof.
  rewrite existsb_app. cbn. rewrite existsb_isLive_stopped. cbn.
  by rewrite orb_false_r.
Qed.

Lemma issued_app w es :
  omap (λ e, match e with Issued _ c => Some c | Completed _ _ => None end) (trace w ++ es)
  = issued w
    ++ omap (λ e, match e with Issued _ c => Some c | Completed _ _ => None end) es.
Proof. unfold issued. by rewrite omap_app. Qed.

Section Handlers.

Variable toDataURL : HTMLCanvasElement → string → Q → string.

Lemma dispatch_SelectFile_image file w :
  uploadVisible w = true → Js.startsWith (type file) "image/" = true →
  dispatch toDataURL (SelectFile file) w
  = suspend [readAsDataURL_call file] (PRead file onLoadEnd) w.
Proof.
  intros Hv Ht. unfold dispatch, handleFile. by rewrite Hv, Ht.
Qed.

Lemma dispatch_LoadEnd file w0 p result :
  p = nextPromise w0 →
  dispatch toDataURL (LoadEnd p result)
    (suspend [readAsDataURL_call file] (PRead file onLoadEnd) w0)
  = exec (onLoadEnd result)
      (settled p (readAsDataURL_call file)
         (suspend [readAsDataURL_call file] (PRead file onLoadEnd) w0)).
Proof. intros ->. unfold dispatch. by rewrite pending_suspend. Qed.

(** X12: an image file chosen on the upload screen is read and nothing else
    happens; when the reader is done, its result is stored as the image,
    the error banner is cleared, the phase is ANALYZING and the analysis
    call for that image is out.  The earlier analysis and results are still
    in place. *)
Theorem file_upload_starts_processing file result w :
  uploadVisible w = true → Js.startsWith (type file) "image/" = true →
  let p := nextPromise w in
  let w1 := dispatch toDataURL (SelectFile file) w in
  let w2 := dispatch toDataURL (LoadEnd p result) w1 in
  (state w1 = state w ∧ issued w1 = issued w ++ [readAsDataURL_call file])
  ∧ image (state w2) = Some result
  ∧ step (state w2) = ANALYZING
  ∧ error (state w2) = None
  ∧ analysis (state w2) = analysis (state w)
  ∧ results (state w2) = results (state w)
  ∧ issued w2 = issued w1 ++ [analyzePhoto_call result].
Proof.
  intros Hv Ht p w1 w2. subst w2 w1 p.
  rewrite (dispatch_SelectFile_image file w Hv Ht).
  split.
  { split; [reflexivity|]. unfold issued at 1. cbn [trace suspend]. apply issued_app. }
  rewrite dispatch_LoadEnd by reflexivity.
  cbn -[lookup insert delete issued].
  split; [reflexivity|]. split; [reflexivity|]. split; [reflexivity|].
  split; [reflexivity|]. split; [reflexivity|].
  unfold issued. cbn -[lookup insert delete].
  rewrite !omap_app. cbn. by rewrite <- !app_assoc.
Qed.

(** X13: a drop on the upload screen clears the drag highlight and then does
    what choosing that file does; a drop that carries no file only clears
    the highlight. *)
Theorem drop_is_upload file w :
  uploadVisible w = true →
  dispatch toDataURL (DropFile (Some file)) w
  = dispatch toDataURL (SelectFile file) (applySetter (setDragActive false) w)
  ∧ dispatch toDataURL (DropFile None) w = applySetter (setDragActive false) w.
Proof.
  intros Hv.
  assert (uploadVisible (applySetter (setDragActive false) w) = true) as Hv' by exact Hv.
  unfold dispatch. rewrite Hv, Hv'. split; reflexivity.
Qed.

Lemma exec_reset w :
  exec reset w
  = mkWorld
      (mkState UPLOAD None None [] 0 None (dragActive (state w)) (showCamera (state w)))
      (if showCamera (state w) then Some (default blankVideo (video w)) else None)
      (streams w) (canvas2d w) (aistudio w) (pending w) (nextPromise w)
      (trace w) (console w).
Proof.
  unfold reset. cbn -[lookup insert delete]. unfold applySetter.
  cbn -[lookup insert delete]. by destruct (showCamera (state w)).
Qed.

(** X14: [reset] puts the phase to UPLOAD and clears image, analysis, results,
    error and message index; it leaves the camera and drag flags, the
    promises in flight and the streams as they are, and issues nothing.
    Resetting twice is resetting once. *)
Theorem reset_clears_session w :
  let w' := dispatch toDataURL ClickReset w in
  state w'
  = mkState UPLOAD None None [] 0 None (dragActive (state w)) (showCamera (state w))
  ∧ pending w' = pending w
  ∧ streams w' = streams w
  ∧ trace w' = trace w
  ∧ dispatch toDataURL ClickReset w' = w'.
Proof.
  intros w'. subst w'. unfold dispatch. rewrite !exec_reset.
  split; [reflexivity|]. split; [reflexivity|].
  split; [reflexivity|]. split; [reflexivity|].
  destruct w as [st v ss c a pd n t co].
  unfold state, video, showCamera, dragActive.
  by destruct st as [? ? ? ? ? ? ? []].
Qed.

Lemma dispatch_ClickOpenStudio w :
  uploadVisible w = true →
  dispatch toDataURL ClickOpenStudio w
  = suspend [getUserMedia_call (videoConstraints "user" 1080 1080)]
      (PUserMedia (videoConstraints "user" 1080 1080) onUserMedia)
      (applySetter (setShowCamera true) w).
Proof. intros Hv. unfold dispatch. by rewrite Hv. Qed.

Lemma dispatch_UserMediaSettled w0 p r :
  p = nextPromise w0 →
  dispatch toDataURL (UserMediaSettled p r)
    (suspend [getUserMedia_call (videoConstraints "user" 1080 1080)]
       (PUserMedia (videoConstraints "user" 1080 1080) onUserMedia) w0)
  = let w' := settled p (getUserMedia_call (videoConstraints "user" 1080 1080))
                (suspend [getUserMedia_call (videoConstraints "user" 1080 1080)]
                   (PUserMedia (videoConstraints "user" 1080 1080) onUserMedia) w0) in
    match r with
    | Fulfilled tracks =>
        exec (onUserMedia (Fulfilled (length (streams w')))) (addStream tracks w')
    | Rejected e => exec (onUserMedia (Rejected e)) w'
    end.
Proof. intros ->. unfold dispatch. by rewrite pending_suspend. Qed.

(** X15: opening the camera from the upload screen shows the camera screen and
    asks for the user-facing camera; when the browser refuses, the camera
    screen is hidden again, the camera message is shown, the phase is still
    UPLOAD, and no stream was handed out. *)
Theorem camera_denied_falls_back e w :
  uploadVisible w = true →
  let p := nextPromise w in
  let w1 := dispatch toDataURL ClickOpenStudio w in
  let w2 := dispatch toDataURL (UserMediaSettled p (Rejected e)) w1 in
  (showCamera (state w1) = true
   ∧ issued w1 = issued w ++ [getUserMedia_call (videoConstraints "user" 1080 1080)])
  ∧ showCamera (state w2) = false
  ∧ error (state w2) = Some cameraDeniedMessage
  ∧ step (state w2) = UPLOAD
  ∧ video w2 = None
  ∧ streams w2 = streams w
  ∧ pending w2 !! p = None.
Proof.
  intros Hv p w1 w2. subst w2 w1 p.
  assert (step (state w) = UPLOAD) as Hstep.
  { unfold uploadVisible in Hv. apply andb_true_iff in Hv as [Hs _].
    by apply bool_decide_eq_true in Hs. }
  rewrite (dispatch_ClickOpenStudio w Hv).
  split.
  { split; [reflexivity|]. unfold issued. cbn -[lookup insert delete]. by rewrite omap_app. }
  rewrite dispatch_UserMediaSettled by reflexivity.
  cbn -[lookup insert delete].
  split; [reflexivity|]. split; [reflexivity|]. split; [exact Hstep|].
  split; [reflexivity|]. split; [reflexivity|]. apply lookup_delete_eq.
Qed.

(** X16: the camera is opened, the browser hands out a stream, and the shutter
    is pressed: the stream is attached to the video element, and the
    capture ends every one of its tracks, hides the camera screen and
    starts a run.  The camera is held afterwards only if it was before. *)
Theorem capture_releases_granted_stream tracks w :
  uploadVisible w = true → canvas2d w = true →
  let p := nextPromise w in
  let w1 := dispatch toDataURL ClickOpenStudio w in
  let w2 := dispatch toDataURL (UserMediaSettled p (Fulfilled tracks)) w1 in
  let w3 := dispatch toDataURL ClickCapture w2 in
  (streams w2 = streams w ++ [replicate tracks {| readyState := live |}]
   ∧ (srcObject <$> video w2) = Some (Some (length (streams w))))
  ∧ streams w3 = streams w ++ [replicate tracks {| readyState := ended |}]
  ∧ cameraHeld w3 = cameraHeld w
  ∧ showCamera (state w3) = false
  ∧ video w3 = None
  ∧ step (state w3) = ANALYZING.
Proof.
  intros Hv Hc p w1 w2 w3. subst w3 w2 w1 p.
  rewrite (dispatch_ClickOpenStudio w Hv).
  rewrite dispatch_UserMediaSettled by reflexivity.
  cbn -[lookup insert delete dispatch].
  split; [split; reflexivity|].
  unfold dispatch, cameraVisible. cbn -[lookup insert delete].
  rewrite Hc. cbn -[lookup insert delete].
  assert (alter (map stopTrack) (length (streams w))
            (streams w ++ [replicate tracks {| readyState := live |}])
          = streams w ++ [replicate tracks {| readyState := ended |}]) as Halter.
  { rewrite <- (Nat.add_0_r (length (streams w))) at 1.
    rewrite alter_app_r. cbn. by rewrite map_stopTrack_replicate. }
  split; [exact Halter|].
  split.
  { unfold cameraHeld. cbn -[lookup insert delete]. rewrite Halter.
    rewrite <- map_stopTrack_replicate with (t := {| readyState := live |}).
    apply cameraHeld_app_stopped. }
  split; [reflexivity|]. split; reflexivity.
Qed.

(** X17: while the loading screen is shown, [n] ticks of the interval move the
    message index [n] places round the list of messages and change nothing
    else; outside the loading screen no tick arrives. *)
Theorem ticks_cycle_messages n w :
  loadingVisible w = true →
  let w' := run toDataURL (replicate (S n) Tick) w in
  state w'
  = write (setLoadingMsgIdx (λ i, (i + S n) mod length LOADING_MESSAGES)) (state w)
  ∧ trace w' = trace w
  ∧ pending w' = pending w.
Proof.
  revert w. induction n as [|n IH]; intros w Hl w'; subst w'.
  - cbn [replicate]. rewrite run_cons, run_nil. unfold dispatch. rewrite Hl.
    split; [reflexivity|]. split; reflexivity.
  - change (replicate (S (S n)) Tick) with (Tick :: replicate (S n) Tick).
    rewrite run_cons.
    assert (dispatch toDataURL Tick w = exec tick w) as -> by (unfold dispatch; by rewrite Hl).
    assert (loadingVisible (exec tick w) = true) as Hl' by exact Hl.
    destruct (IH (exec tick w) Hl') as (Hst & Htr & Hp).
    rewrite Hst, Htr, Hp. split; [|split; reflexivity].
    cbn -[Nat.modulo LOADING_MESSAGES]. f_equal.
    rewrite Nat.Div0.add_mod_idemp_l. f_equal. lia.
Qed.

Lemma dispatch_ClickUpdateKey_host w host :
  errorVisible w = true → aistudio w = Some host →
  openSelectKey_is_function host = true →
  dispatch toDataURL ClickUpdateKey w
  = suspend [openSelectKey_call] (PSelectKey onKeySelected) w.
Proof.
  intros Hv Hh Hf. unfold dispatch, updateKey. rewrite Hv.
  cbn -[lookup insert delete]. rewrite Hh. cbn -[lookup insert delete]. rewrite Hf.
  reflexivity.
Qed.

End Handlers.

Section Outcomes.

Variable toDataURL : HTMLCanvasElement → string → Q → string.

(** X18: the Update Key button of the error banner.  Where the host page has no
    [aistudio] object the banner is cleared at once and nothing is asked
    for.  Where it has one with a key selector, the selector is opened and
    the banner stays: it is cleared when the selector's promise is
    fulfilled, and a rejection leaves the state as it was at the click. *)
Theorem update_key_clears_banner_after_selection w :
  errorVisible w = true →
  let p := nextPromise w in
  let w1 := dispatch toDataURL ClickUpdateKey w in
  (aistudio w = None →
     error (state w1) = None ∧ issued w1 = issued w ∧ pending w1 = pending w)
  ∧ (∀ host, aistudio w = Some host → openSelectKey_is_function host = true →
       state w1 = state w
       ∧ issued w1 = issued w ++ [openSelectKey_call]
       ∧ error (state (dispatch toDataURL (SelectKeySettled p (Fulfilled tt)) w1)) = None
       ∧ ∀ e, state (dispatch toDataURL (SelectKeySettled p (Rejected e)) w1) = state w).
Proof.
  intros Hv p w1. split.
  - intros Hn. subst w1. unfold dispatch, updateKey. rewrite Hv.
    cbn -[lookup insert delete]. rewrite Hn. cbn -[lookup insert delete].
    split; [reflexivity|]. split; reflexivity.
  - intros host Hh Hf. subst w1 p.
    rewrite (dispatch_ClickUpdateKey_host toDataURL w host Hv Hh Hf).
    split; [reflexivity|].
    split; [unfold issued; cbn -[lookup insert delete]; by rewrite omap_app|].
    unfold dispatch. rewrite !pending_suspend.
    split; [reflexivity|]. intros e. reflexivity.
Qed.

Lemma pending_processImage b w :
  pending (exec (processImage b) w) !! nextPromise w
  = Some (PAnalyze b (onAnalysis b)).
Proof. cbn -[lookup insert delete]. apply lookup_insert_eq. Qed.

(** X19: a run whose analysis call fails with an error that is no credential
    failure, or on a host without key selector: the phase is UPLOAD again
    and the banner shows the message of the error's class; the image, the
    analysis and the results stored before the run are still there; the
    error is logged once, and no further call is issued. *)
Theorem analysis_failure_keeps_session b e w :
  isCredentialError (errorMessage e) = false ∨ keySelector w = false →
  let p := nextPromise w in
  let w1 := exec (processImage b) w in
  let w2 := dispatch toDataURL (AnalysisSettled p (Rejected e)) w1 in
  state w2
  = mkState UPLOAD (image (state w)) (analysis (state w)) (results (state w))
      (loadingMsgIdx (state w))
      (Some (if isCredentialError (errorMessage e)
             then credentialMessage else genericMessage))
      (dragActive (state w)) (showCamera (state w))
  ∧ issued w2 = issued w ++ [analyzePhoto_call b]
  ∧ console w2 = console w ++ ["API Error: " +:+ Js.toString e]
  ∧ pending w2 !! p = None.
Proof.
  intros Hcase p w1 w2. subst w2 w1 p.
  unfold dispatch. rewrite pending_processImage, onAnalysis_rejected.
  unfold spawn, handleApiError, keySelector in *.
  destruct (isCredentialError (errorMessage e)).
  - destruct Hcase as [?|Hk]; [done|].
    cbn -[lookup insert delete].
    destruct (aistudio w) as [[f]|]; cbn -[lookup insert delete] in *.
    + rewrite Hk. cbn -[lookup insert delete].
      split; [reflexivity|].
      split; [unfold issued; cbn -[lookup insert delete]; rewrite !omap_app; cbn;
              by rewrite app_nil_r|].
      split; [reflexivity|]. rewrite lookup_delete_eq. reflexivity.
    + split; [reflexivity|].
      split; [unfold issued; cbn -[lookup insert delete]; rewrite !omap_app; cbn;
              by rewrite app_nil_r|].
      split; [reflexivity|]. rewrite lookup_delete_eq. reflexivity.
  - cbn -[lookup insert delete].
    split; [reflexivity|].
    split; [unfold issued; cbn -[lookup insert delete]; rewrite !omap_app; cbn;
            by rewrite app_nil_r|].
    split; [reflexivity|]. rewrite lookup_delete_eq. reflexivity.
Qed.

Lemma state_finish a gs w0 st :
  state w0 = generating a st →
  state (exec (finish gs) w0)
  = match gs with
    | [] =>
        mkState UPLOAD (image st) (Some a) (results st) (loadingMsgIdx st)
          (Some genericMessage) (dragActive st) (showCamera st)
    | _ =>
        mkState RESULT (image st) (Some a) gs (loadingMsgIdx st)
          None (dragActive st) (showCamera st)
    end.
Proof.
  intros Hst. unfold finish. destruct gs as [|g gs]; cbn [length Nat.eqb].
  - unfold spawn, handleApiError. rewrite couldNotGenerate_generic.
    cbn. rewrite Hst. reflexivity.
  - cbn. rewrite Hst. reflexivity.
Qed.

(** X20: the state a whole run ends in is a function of the analysis and of the
    outcomes of the synthesis calls alone: the order in which these calls
    settle has no part in it.  With at least one success the results are
    the generated styles, the phase is RESULT and the banner is clear; with
    none the phase is UPLOAD, the generic message is shown and the earlier
    results stay.  Either way the new analysis is stored, and the image,
    the message index and the drag and camera flags are as before the run. *)
Theorem run_outcome b a rs order w :
  let N := length (recommendations a) in
  length rs = N → order ≡ₚ seq 0 N →
  let st := state w in
  state (processRun toDataURL b a rs order w)
  = match omap (λ r, r) (zip_with generated (recommendations a) rs) with
    | [] =>
        mkState UPLOAD (image st) (Some a) (results st) (loadingMsgIdx st)
          (Some genericMessage) (dragActive st) (showCamera st)
    | generatedResults =>
        mkState RESULT (image st) (Some a) generatedResults (loadingMsgIdx st)
          None (dragActive st) (showCamera st)
    end.
Proof.
  intros N Hlen Hperm st.
  destruct (processRun_finish toDataURL b a rs order w Hlen Hperm) as (w0 & -> & Hst).
  rewrite (state_finish a _ w0 (state w) Hst).
  by destruct (omap _ _).
Qed.

Lemma generated_all_fulfilled recs urls :
  omap (λ r, r) (zip_with generated recs (Fulfilled <$> urls))
  = zip_with mkGenerated recs urls.
Proof.
  revert urls. induction recs as [|rec recs IH]; intros [|url urls]; cbn; try done.
  by rewrite IH.
Qed.

(** X21: when every synthesis call succeeds, the results pair each
    recommendation, in order, with the image its call returned, and the
    phase is RESULT. *)
Theorem full_synthesis_result b a urls order w :
  let N := length (recommendations a) in
  length urls = N → order ≡ₚ seq 0 N → 0 < N →
  let w' := processRun toDataURL b a (Fulfilled <$> urls) order w in
  results (state w') = zip_with mkGenerated (recommendations a) urls
  ∧ style <$> results (state w') = recommendations a
  ∧ imageUrl <$> results (state w') = urls
  ∧ step (state w') = RESULT
  ∧ error (state w') = None
  ∧ analysis (state w') = Some a.
Proof.
  intros N Hlen Hperm HN w'. subst w'.
  destruct (processRun_finish toDataURL b a (Fulfilled <$> urls) order w)
    as (w0 & -> & Hst); [by rewrite length_fmap|done|].
  rewrite (state_finish a _ w0 (state w) Hst), generated_all_fulfilled.
  assert (∀ (recs : list HairstyleRecommendation) (us : list string),
            length us = length recs →
            style <$> zip_with mkGenerated recs us = recs
            ∧ imageUrl <$> zip_with mkGenerated recs us = us) as Hzip.
  { induction recs as [|rec recs IH]; intros [|u us] Hl; try done.
    cbn in Hl. injection Hl as Hl. destruct (IH us Hl) as [E1 E2].
    cbn. by rewrite E1, E2. }
  destruct (Hzip (recommendations a) urls Hlen) as [E1 E2].
  destruct (zip_with mkGenerated (recommendations a) urls) as [|g gs] eqn:E.
  - exfalso. subst N. destruct (recommendations a); [cbn in HN; lia|].
    destruct urls; done.
  - cbn [results step error analysis].
    split; [reflexivity|]. split; [exact E1|]. split; [exact E2|].
    split; [reflexivity|]. split; reflexivity.
Qed.

Lemma console_finish gs w :
  console (exec (finish gs) w)
  = console w
      ++ (if (length gs =? 0)%nat
          then ["API Error: " +:+ Js.toString couldNotGenerate] else []).
Proof.
  unfold finish. destruct gs as [|g gs]; cbn [length Nat.eqb].
  - unfold spawn, handleApiError. by rewrite couldNotGenerate_generic.
  - cbn. by rewrite app_nil_r.
Qed.

(** X24: over a run with at least one recommendation, each synthesis call
    that fails is logged once, with the name of its style and its error,
    and the lines stand in the order in which the calls failed, not in the
    order of the recommendations; a successful call logs nothing.  When
    no call succeeded, the line of [handleApiError] for "Could not generate
    styles." follows them. *)
Theorem failed_calls_are_logged_as_they_fail b a rs order w :
  let N := length (recommendations a) in
  length rs = N → order ≡ₚ seq 0 N → 0 < N →
  console (processRun toDataURL b a rs order w)
  = console w
      ++ omap (λ i, match recommendations a !! i, rs !! i with
                    | Some rec, Some (Rejected e) =>
                        Some ("Error generating " +:+ name rec +:+ ": " +:+ Js.toString e)
                    | _, _ => None
                    end) order
      ++ (if (succeeded rs =? 0)%nat
          then ["API Error: " +:+ Js.toString couldNotGenerate] else []).
Proof.
  intros N Hlen Hperm HN.
  assert (recommendations a ≠ []) as Hne.
  { intros E. subst N. rewrite E in HN. cbn in HN. lia. }
  unfold processRun. rewrite run_cons.
  rewrite (dispatch_analysis_fulfilled toDataURL _ _ _ _ (pending_processImage b w) Hne).
  rewrite (join_resumes toDataURL (S (nextPromise w)) b a rs order);
    [|by apply pending_suspend|done..].
  rewrite console_finish, length_generated by done.
  cbn [console joined]. rewrite <- app_assoc. do 2 f_equal.
  unfold failureLines, synthesisCalls, generationErrorLine.
  clear Hperm. induction order as [|i order IH]; [done|].
  cbn [omap list_omap]. rewrite IH, lookup_map.
  by destruct (recommendations a !! i).
Qed.

End Outcomes.

Section Camera.

Variable toDataURL : HTMLCanvasElement → string → Q → string.

(** X22: the shutter pressed before the browser has answered the camera
    request: the picture is taken from a video without a frame, so what is
    stored and analysed is the encoding of a canvas of width and height 0;
    the stream the browser hands out afterwards is not attached to any
    element, changes nothing in the state, and its tracks stay live. *)
Theorem capture_before_grant tracks w :
  uploadVisible w = true → video w = None → canvas2d w = true →
  let p := nextPromise w in
  let w1 := dispatch toDataURL ClickOpenStudio w in
  let w2 := dispatch toDataURL ClickCapture w1 in
  let w3 := dispatch toDataURL (UserMediaSettled p (Fulfilled tracks)) w2 in
  (image (state w2) = Some (toDataURL (cropped blankVideo) "image/jpeg" (9 # 10))
   ∧ width (cropped blankVideo) = 0%Z
   ∧ height (cropped blankVideo) = 0%Z
   ∧ step (state w2) = ANALYZING
   ∧ streams w2 = streams w)
  ∧ state w3 = state w2
  ∧ video w3 = None
  ∧ streams w3 = streams w ++ [replicate tracks {| readyState := live |}]
  ∧ (0 < tracks → cameraHeld w3 = true).
Proof.
  intros Hv Hvid Hc p w1 w2 w3. subst w3 w2 w1 p.
  rewrite (dispatch_ClickOpenStudio toDataURL w Hv).
  set (c := videoConstraints "user" 1080 1080).
  set (w1 := suspend [getUserMedia_call c] (PUserMedia c onUserMedia)
               (applySetter (setShowCamera true) w)).
  assert (dispatch toDataURL ClickCapture w1
          = exec (capturePhoto toDataURL) w1) as -> by reflexivity.
  assert (dom w1 = mkDom (Some blankVideo) (Some blankCanvas) true (aistudio w)) as Hdom.
  { unfold dom, w1. cbn -[lookup insert delete]. by rewrite Hvid, Hc. }
  unfold capturePhoto. cbn [mbind Async_bind bind get exec].
  rewrite Hdom. cbn [videoRef canvasRef context2d].
  set (captured := toDataURL (cropped blankVideo) "image/jpeg" (9 # 10)).
  cbn -[lookup insert delete dispatch captured cropped].
  split.
  { split; [reflexivity|]. split; [reflexivity|]. split; [reflexivity|].
    split; reflexivity. }
  unfold dispatch. cbn -[lookup insert delete captured cropped].
  rewrite lookup_insert_ne by lia. rewrite lookup_insert_eq.
  cbn -[lookup insert delete captured cropped].
  split; [reflexivity|]. split; [reflexivity|]. split; [reflexivity|].
  intros Ht. unfold cameraHeld. cbn -[lookup insert delete captured cropped].
  rewrite existsb_app. destruct tracks as [|n]; [lia|]. cbn.
  by rewrite orb_true_r.
Qed.

End Camera.

(** ** The further properties at sample inputs *)

Lemma cleanBase64_data_uri_witness :
  (Js.includes "data:image/png;base64" "," = false
   ∧ Js.includes "Rmlyc3Q=" "," = false)
  ∧ cleanBase64 ("data:image/png;base64" +:+ "," +:+ "Rmlyc3Q=") = "Rmlyc3Q="
  ∧ ∀ rest,
      cleanBase64 ("data:image/png;base64" +:+ "," +:+ "Rmlyc3Q=" +:+ "," +:+ rest)
      = "Rmlyc3Q=".
Proof.
  split; [split; reflexivity|].
  apply (cleanBase64_data_uri "data:image/png;base64" "Rmlyc3Q="); reflexivity.
Defined.

Lemma requests_send_payload_as_jpeg_witness :
  (Js.includes "data:image/png;base64" "," = false
   ∧ Js.includes "Rmlyc3Q=" "," = false)
  ∧ let base64Image := "data:image/png;base64" +:+ "," +:+ "Rmlyc3Q=" in
    contents (analyzeRequest base64Image)
    = [ mkPart (Some (mkBlob (Some "image/jpeg") (Some "Rmlyc3Q="))) None;
        mkPart None (Some analysisPrompt) ]
    ∧ contents (transformRequest base64Image "Buzz Cut")
      = [ mkPart (Some (mkBlob (Some "image/jpeg") (Some "Rmlyc3Q="))) None;
          mkPart None (Some (stylePrompt "Buzz Cut")) ].
Proof.
  split; [split; reflexivity|].
  apply (requests_send_payload_as_jpeg "data:image/png;base64" "Rmlyc3Q=" "Buzz Cut");
    reflexivity.
Defined.

Lemma transformHairstyle_failures_witness :
  let ai : Provider := λ _, Fulfilled Scene.silent in
  transformHairstyle ai Sample.first "Buzz Cut" = Rejected visualizerError
  ∧ (ai (transformRequest Sample.first "Buzz Cut") = Rejected visualizerError
     ∨ visualizerError = visualizerError
     ∨ visualizerError = partsTypeError).
Proof.
  split; [reflexivity|].
  apply (transformHairstyle_failures (λ _, Fulfilled Scene.silent)
           Sample.first "Buzz Cut" visualizerError).
  reflexivity.
Defined.

Lemma result_phase_has_results_witness :
  let w := run Sample.encoder Scene.gallery (initialWorld None) in
  step (state w) = RESULT ∧ results (state w) ≠ [].
Proof.
  intros w. assert (step (state w) = RESULT) as H by (vm_compute; reflexivity).
  split; [exact H|].
  apply (result_phase_has_results Sample.encoder None Scene.gallery). exact H.
Defined.

Lemma file_upload_starts_processing_witness :
  let w := initialWorld None in
  (uploadVisible w = true ∧ Js.startsWith (type Sample.portrait) "image/" = true)
  ∧ let p := nextPromise w in
    let w1 := dispatch Sample.encoder (SelectFile Sample.portrait) w in
    let w2 := dispatch Sample.encoder (LoadEnd p Sample.first) w1 in
    (state w1 = state w ∧ issued w1 = issued w ++ [readAsDataURL_call Sample.portrait])
    ∧ image (state w2) = Some Sample.first
    ∧ step (state w2) = ANALYZING
    ∧ error (state w2) = None
    ∧ analysis (state w2) = analysis (state w)
    ∧ results (state w2) = results (state w)
    ∧ issued w2 = issued w1 ++ [analyzePhoto_call Sample.first].
Proof.
  intros w. split; [split; reflexivity|].
  apply (file_upload_starts_processing Sample.encoder Sample.portrait Sample.first w);
    reflexivity.
Defined.

Lemma drop_is_upload_witness :
  let w := initialWorld None in
  uploadVisible w = true
  ∧ dispatch Sample.encoder (DropFile (Some Sample.portrait)) w
    = dispatch Sample.encoder (SelectFile Sample.portrait)
        (applySetter (setDragActive false) w)
  ∧ dispatch Sample.encoder (DropFile None) w = applySetter (setDragActive false) w.
Proof.
  intros w. split; [reflexivity|].
  apply (drop_is_upload Sample.encoder Sample.portrait w). reflexivity.
Defined.

Lemma camera_denied_falls_back_witness :
  let w := initialWorld None in
  let e := Js.mkError "NotAllowedError" "Permission denied" in
  uploadVisible w = true
  ∧ let p := nextPromise w in
    let w1 := dispatch Sample.encoder ClickOpenStudio w in
    let w2 := dispatch Sample.encoder (UserMediaSettled p (Rejected e)) w1 in
    (showCamera (state w1) = true
     ∧ issued w1 = issued w ++ [getUserMedia_call (videoConstraints "user" 1080 1080)])
    ∧ showCamera (state w2) = false
    ∧ error (state w2) = Some cameraDeniedMessage
    ∧ step (state w2) = UPLOAD
    ∧ video w2 = None
    ∧ streams w2 = streams w
    ∧ pending w2 !! p = None.
Proof.
  intros w e. split; [reflexivity|].
  apply (camera_denied_falls_back Sample.encoder e w). reflexivity.
Defined.

Lemma capture_releases_granted_stream_witness :
  let w := initialWorld None in
  (uploadVisible w = true ∧ canvas2d w = true)
  ∧ let p := nextPromise w in
    let w1 := dispatch Sample.encoder ClickOpenStudio w in
    let w2 := dispatch Sample.encoder (UserMediaSettled p (Fulfilled 2%nat)) w1 in
    let w3 := dispatch Sample.encoder ClickCapture w2 in
    (streams w2 = streams w ++ [replicate 2 {| readyState := live |}]
     ∧ (srcObject <$> video w2) = Some (Some (length (streams w))))
    ∧ streams w3 = streams w ++ [replicate 2 {| readyState := ended |}]
    ∧ cameraHeld w3 = cameraHeld w
    ∧ showCamera (state w3) = false
    ∧ video w3 = None
    ∧ step (state w3) = ANALYZING.
Proof.
  intros w. split; [split; reflexivity|].
  apply (capture_releases_granted_stream Sample.encoder 2%nat w); reflexivity.
Defined.

Lemma capture_before_grant_witness :
  let w := initialWorld None in
  (uploadVisible w = true ∧ video w = None ∧ canvas2d w = true ∧ (0 < 1)%nat)
  ∧ let p := nextPromise w in
    let w1 := dispatch Sample.encoder ClickOpenStudio w in
    let w2 := dispatch Sample.encoder ClickCapture w1 in
    let w3 := dispatch Sample.encoder (UserMediaSettled p (Fulfilled 1%nat)) w2 in
    (image (state w2) = Some (Sample.encoder (cropped blankVideo) "image/jpeg" (9 # 10))
     ∧ width (cropped blankVideo) = 0%Z
     ∧ height (cropped blankVideo) = 0%Z
     ∧ step (state w2) = ANALYZING
     ∧ streams w2 = streams w)
    ∧ state w3 = state w2
    ∧ video w3 = None
    ∧ streams w3 = streams w ++ [replicate 1 {| readyState := live |}]
    ∧ cameraHeld w3 = true.
Proof.
  intros w.
  split; [split; [reflexivity | split; [reflexivity | split; [reflexivity | lia]]]|].
  destruct (capture_before_grant Sample.encoder 1%nat w)
    as (H2 & Hst & Hvid & Hss & Hheld); [reflexivity | reflexivity | reflexivity |].
  split; [exact H2|]. split; [exact Hst|]. split; [exact Hvid|]. split; [exact Hss|].
  apply Hheld. lia.
Defined.

Lemma ticks_cycle_messages_witness :
  let w := Scene.loading in
  loadingVisible w = true
  ∧ let w' := run Sample.encoder (replicate 7 Tick) w in
    state w'
    = write (setLoadingMsgIdx (λ i, (i + 7) mod length LOADING_MESSAGES)) (state w)
    ∧ trace w' = trace w
    ∧ pending w' = pending w.
Proof.
  intros w. split; [reflexivity|].
  apply (ticks_cycle_messages Sample.encoder 6 w). reflexivity.
Defined.

Lemma update_key_clears_banner_after_selection_witness :
  let w := Scene.refused in
  (errorVisible w = true ∧ aistudio w = Some Sample.host
   ∧ openSelectKey_is_function Sample.host = true)
  ∧ let p := nextPromise w in
    let w1 := dispatch Sample.encoder ClickUpdateKey w in
    state w1 = state w
    ∧ issued w1 = issued w ++ [openSelectKey_call]
    ∧ error (state (dispatch Sample.encoder (SelectKeySettled p (Fulfilled tt)) w1)) = None
    ∧ ∀ e, state (dispatch Sample.encoder (SelectKeySettled p (Rejected e)) w1) = state w.
Proof.
  intros w. split; [split; [reflexivity | split; reflexivity]|].
  destruct (update_key_clears_banner_after_selection Sample.encoder w) as [_ H];
    [reflexivity|].
  apply (H Sample.host); reflexivity.
Defined.

Lemma analysis_failure_keeps_session_witness :
  let w := initialWorld (Some Sample.host) in
  let e := Sample.noImage in
  (isCredentialError (errorMessage e) = false ∨ keySelector w = false)
  ∧ let p := nextPromise w in
    let w1 := exec (processImage Sample.first) w in
    let w2 := dispatch Sample.encoder (AnalysisSettled p (Rejected e)) w1 in
    state w2
    = mkState UPLOAD (image (state w)) (analysis (state w)) (results (state w))
        (loadingMsgIdx (state w))
        (Some (if isCredentialError (errorMessage e)
               then credentialMessage else genericMessage))
        (dragActive (state w)) (showCamera (state w))
    ∧ issued w2 = issued w ++ [analyzePhoto_call Sample.first]
    ∧ console w2 = console w ++ ["API Error: " +:+ Js.toString e]
    ∧ pending w2 !! p = None.
Proof.
  intros w e.
  assert (isCredentialError (errorMessage e) = false ∨ keySelector w = false) as H
    by (left; reflexivity).
  split; [exact H|].
  apply (analysis_failure_keeps_session Sample.encoder Sample.first e w). exact H.
Defined.

Lemma failed_calls_are_logged_as_they_fail_witness :
  let a := Sample.oval in
  let rs := [ Rejected Sample.noImage; Fulfilled "data:image/png;base64,Qg==";
              Rejected Sample.noKey; Fulfilled "data:image/png;base64,RA==" ] in
  let w := initialWorld None in
  (length rs = length (recommendations a)
   ∧ Sample.order ≡ₚ seq 0 (length (recommendations a))
   ∧ 0 < length (recommendations a))
  ∧ console (processRun Sample.encoder Sample.first a rs Sample.order w)
    = [ "Error generating Buzz Cut: Error: No key selected";
        "Error generating Textured Crop: Error: Visualizer engine error: Failed to generate stylized image." ].
Proof.
  intros a rs w.
  assert (0 < length (recommendations a)) as HN by (cbn; lia).
  split; [split; [reflexivity | split; [apply Sample_order_perm | exact HN]]|].
  rewrite (failed_calls_are_logged_as_they_fail Sample.encoder Sample.first a rs
             Sample.order w eq_refl Sample_order_perm HN).
  reflexivity.
Defined.

Lemma run_outcome_witness :
  let a := Sample.oval in
  let rs := Sample.outcomes in
  let w := initialWorld None in
  (length rs = length (recommendations a)
   ∧ Sample.order ≡ₚ seq 0 (length (recommendations a)))
  ∧ let st := state w in
    state (processRun Sample.encoder Sample.first a rs Sample.order w)
    = match omap (λ r, r) (zip_with generated (recommendations a) rs) with
      | [] =>
          mkState UPLOAD (image st) (Some a) (results st) (loadingMsgIdx st)
            (Some genericMessage) (dragActive st) (showCamera st)
      | generatedResults =>
          mkState RESULT (image st) (Some a) generatedResults (loadingMsgIdx st)
            None (dragActive st) (showCamera st)
      end.
Proof.
  intros a rs w.
  split; [split; [reflexivity | apply Sample_order_perm]|].
  apply (run_outcome Sample.encoder Sample.first a rs Sample.order w);
    [reflexivity | apply Sample_order_perm].
Defined.

Lemma full_synthesis_result_witness :
  let a := Sample.oval in
  let urls := ["data:image/png;base64,QQ=="; "data:image/png;base64,Qg==";
               "data:image/png;base64,Qw=="; "data:image/png;base64,RA=="] in
  let w := initialWorld None in
  (length urls = length (recommendations a)
   ∧ Sample.order ≡ₚ seq 0 (length (recommendations a))
   ∧ 0 < length (recommendations a))
  ∧ let w' := processRun Sample.encoder Sample.first a (Fulfilled <$> urls)
                Sample.order w in
    results (state w') = zip_with mkGenerated (recommendations a) urls
    ∧ style <$> results (state w') = recommendations a
    ∧ imageUrl <$> results (state w') = urls
    ∧ step (state w') = RESULT
    ∧ error (state w') = None
    ∧ analysis (state w') = Some a.
Proof.
  intros a urls w.
  assert (0 < length (recommendations a)) as HN by (cbn; lia).
  split; [split; [reflexivity | split; [apply Sample_order_perm | exact HN]]|].
  apply (full_synthesis_result Sample.encoder Sample.first a urls Sample.order w);
    [reflexivity | apply Sample_order_perm | exact HN].
Defined.
